(** * Confusables: the skeleton engine and its table generator

    A shallow embedding of [confusables.go] (the [Skeleton] function) and of
    [maketables.go] (the generator of the [confusablesMap] table), with the
    properties the specification states about them.

    Go strings are byte sequences, modelled as [list byte]; a [rune] is an
    [int32], modelled as a [Z] with the conversions written out; [log.Fatal]
    is an explicit [Fatal] result; a slice expression out of range is an
    explicit run-time panic ([None]). *)

From Equations Require Import Equations.
From Stdlib Require Import Strings.Byte Strings.String Strings.Ascii.
From Stdlib Require Import List ZArith Lia Bool Arith.
Import ListNotations.

Set Default Goal Selector "!".

(** ** Go strings and runes *)

Definition gostring := list byte.
Definition rune := Z.

(** A string literal of the Go source, as its bytes (UTF-8). *)
Definition lit (s : String.string) : gostring := list_byte_of_string s.
Arguments lit s%_string_scope.

Definition byteZ (b : byte) : Z := Z.of_N (Byte.to_N b).

Definition byte_of_Z (z : Z) : byte :=
  match Byte.of_N (Z.to_N (z mod 256)) with
  | Some b => b
  | None => x00
  end.

Fixpoint gostring_eqb (a b : gostring) : bool :=
  match a, b with
  | [], [] => true
  | x :: a', y :: b' => Byte.eqb x y && gostring_eqb a' b'
  | _, _ => false
  end.

(** [s[lo:hi]]: panics (here [None]) unless [lo <= hi <= len(s)]. *)
Definition slice (s : gostring) (lo hi : nat) : option gostring :=
  if (lo <=? hi)%nat && (hi <=? length s)%nat
  then Some (firstn (hi - lo) (skipn lo s))
  else None.

(** [s[lo:]] and [s[:hi]]. *)
Definition slice_from (s : gostring) (lo : nat) : option gostring :=
  slice s lo (length s).
Definition slice_to (s : gostring) (hi : nat) : option gostring :=
  slice s 0 hi.

(** ** Package [unicode/utf8] *)

Module utf8.

Local Open Scope Z_scope.

Definition RuneError : rune := 0xFFFD.
Definition MaxRune : rune := 0x10FFFF.

(** A continuation byte lies in [locb, hicb] = [0x80, 0xBF]. *)
Definition in_range (lo hi : Z) (b : byte) : bool :=
  (lo <=? byteZ b) && (byteZ b <=? hi).

Definition cont (b : byte) : Z := Z.land (byteZ b) 0x3F.

(** The entry of the [first] table for a leading byte: its sequence size and
    the accepted range of the second byte; [None] for ASCII and for the
    bytes that start no sequence. *)
Definition first (s0 : Z) : option (nat * (Z * Z)) :=
  if s0 <? 0xC2 then None
  else if s0 <? 0xE0 then Some (2%nat, (0x80, 0xBF))
  else if s0 =? 0xE0 then Some (3%nat, (0xA0, 0xBF))
  else if s0 <? 0xED then Some (3%nat, (0x80, 0xBF))
  else if s0 =? 0xED then Some (3%nat, (0x80, 0x9F))
  else if s0 <? 0xF0 then Some (3%nat, (0x80, 0xBF))
  else if s0 =? 0xF0 then Some (4%nat, (0x90, 0xBF))
  else if s0 <? 0xF4 then Some (4%nat, (0x80, 0xBF))
  else if s0 =? 0xF4 then Some (4%nat, (0x80, 0x8F))
  else None.

(** [utf8.DecodeRuneInString]: the first rune of [s] and its width in bytes;
    [(RuneError, 0)] for the empty string, [(RuneError, 1)] for an invalid
    encoding. *)
Definition DecodeRuneInString (s : gostring) : rune * nat :=
  match s with
  | [] => (RuneError, 0%nat)
  | b0 :: t =>
    let s0 := byteZ b0 in
    match first s0 with
    | None => if s0 <? 0x80 then (s0, 1%nat) else (RuneError, 1%nat)
    | Some (sz, (lo, hi)) =>
      if (length s <? sz)%nat then (RuneError, 1%nat) else
      match t with
      | [] => (RuneError, 1%nat)
      | b1 :: t1 =>
        if negb (in_range lo hi b1) then (RuneError, 1%nat) else
        if (sz <=? 2)%nat
        then (Z.lor (Z.shiftl (Z.land s0 0x1F) 6) (cont b1), 2%nat) else
        match t1 with
        | [] => (RuneError, 1%nat)
        | b2 :: t2 =>
          if negb (in_range 0x80 0xBF b2) then (RuneError, 1%nat) else
          if (sz <=? 3)%nat
          then (Z.lor (Z.lor (Z.shiftl (Z.land s0 0x0F) 12)
                             (Z.shiftl (cont b1) 6)) (cont b2), 3%nat) else
          match t2 with
          | [] => (RuneError, 1%nat)
          | b3 :: _ =>
            if negb (in_range 0x80 0xBF b3) then (RuneError, 1%nat) else
            (Z.lor (Z.lor (Z.lor (Z.shiftl (Z.land s0 0x07) 18)
                                 (Z.shiftl (cont b1) 12))
                          (Z.shiftl (cont b2) 6)) (cont b3), 4%nat)
          end
        end
      end
    end
  end.

(** The conversion [string(r)] of one rune: its UTF-8 encoding, and
    the encoding of [RuneError] for a surrogate or a value out of range. *)
Definition EncodeRune (r : rune) : gostring :=
  if (0 <=? r) && (r <=? 0x7F) then [byte_of_Z r]
  else if (0 <=? r) && (r <=? 0x7FF) then
    [byte_of_Z (Z.lor 0xC0 (Z.shiftr r 6));
     byte_of_Z (Z.lor 0x80 (Z.land r 0x3F))]
  else if (r <? 0) || (MaxRune <? r) || ((0xD800 <=? r) && (r <=? 0xDFFF)) then
    [xef; xbf; xbd]
  else if r <=? 0xFFFF then
    [byte_of_Z (Z.lor 0xE0 (Z.shiftr r 12));
     byte_of_Z (Z.lor 0x80 (Z.land (Z.shiftr r 6) 0x3F));
     byte_of_Z (Z.lor 0x80 (Z.land r 0x3F))]
  else
    [byte_of_Z (Z.lor 0xF0 (Z.shiftr r 18));
     byte_of_Z (Z.lor 0x80 (Z.land (Z.shiftr r 12) 0x3F));
     byte_of_Z (Z.lor 0x80 (Z.land (Z.shiftr r 6) 0x3F));
     byte_of_Z (Z.lor 0x80 (Z.land r 0x3F))].

End utf8.

Arguments utf8.DecodeRuneInString : simpl never.
Arguments utf8.EncodeRune : simpl never.

(** The conversion [string(rs)] of a [[]rune]. *)
Definition string_of_runes (rs : list rune) : gostring :=
  flat_map utf8.EncodeRune rs.

(** ** Packages [strings] and [strconv], as far as the generator uses them *)

Module strings.

Fixpoint HasPrefix (s prefix : gostring) : bool :=
  match prefix, s with
  | [], _ => true
  | p :: ps, c :: cs => Byte.eqb c p && HasPrefix cs ps
  | _ :: _, [] => false
  end.

Fixpoint Contains (s substr : gostring) : bool :=
  HasPrefix s substr ||
  match s with
  | [] => false
  | _ :: t => Contains t substr
  end.

(** [strings.Split] with a non-empty separator: the pieces between the
    occurrences of [sep], found left to right without overlap.  [skip]
    counts the bytes of an occurrence still to be passed over and [cur] is
    the piece read so far. *)
Fixpoint Split_from (sep : gostring) (skip : nat) (cur s : gostring)
  : list gostring :=
  match s with
  | [] => [cur]
  | c :: t =>
    match skip with
    | S k => Split_from sep k cur t
    | O =>
      if HasPrefix s sep
      then cur :: Split_from sep (length sep - 1) [] t
      else Split_from sep 0 (cur ++ [c]) t
    end
  end.

Definition Split (s sep : gostring) : list gostring := Split_from sep 0 [] s.

(** [strings.Replace(s, old, new, -1)] with a non-empty [old]: every
    occurrence of [old], found left to right without overlap, becomes
    [new]. *)
Fixpoint Replace_from (old new : gostring) (skip : nat) (s : gostring)
  : gostring :=
  match s with
  | [] => []
  | c :: t =>
    match skip with
    | S k => Replace_from old new k t
    | O =>
      if HasPrefix s old
      then new ++ Replace_from old new (length old - 1) t
      else c :: Replace_from old new 0 t
    end
  end.

Definition Replace (s old new : gostring) : gostring :=
  Replace_from old new 0 s.

End strings.

Module strconv.

Local Open Scope Z_scope.

Inductive NumError := ErrSyntax | ErrRange.

Definition maxUint64 : Z := 2 ^ 64 - 1.

(** The value of a digit: ['0'..'9'], and the letters of either case. *)
Definition digit (c : byte) : option Z :=
  let z := byteZ c in
  if (0x30 <=? z) && (z <=? 0x39) then Some (z - 0x30)
  else
    let l := Z.lor z 0x20 in
    if (0x61 <=? l) && (l <=? 0x7A) then Some (l - 0x61 + 10)
    else None.

(** The digit loop of [ParseUint] for a base in [2, 36] and bit size 64,
    with [n] the [uint64] read so far.  On an error the returned number is
    0 or the largest [uint64], as in the library. *)
Fixpoint ParseUint_loop (base : Z) (cs : gostring) (n : Z)
  : Z * option NumError :=
  match cs with
  | [] => (n, None)
  | c :: cs' =>
    match digit c with
    | None => (0, Some ErrSyntax)
    | Some d =>
      if d >=? base then (0, Some ErrSyntax)
      else if n >=? maxUint64 / base + 1 then (maxUint64, Some ErrRange)
      else
        let n' := (n * base) mod 2 ^ 64 in
        let n1 := (n' + d) mod 2 ^ 64 in
        if (n1 <? n') || (n1 >? maxUint64) then (maxUint64, Some ErrRange)
        else ParseUint_loop base cs' n1
    end
  end.

(** [strconv.ParseUint(s, base, 64)] for an explicit base. *)
Definition ParseUint (s : gostring) (base : Z) : Z * option NumError :=
  match s with
  | [] => (0, Some ErrSyntax)
  | _ => ParseUint_loop base s 0
  end.

End strconv.

(** The conversion [rune(x)] of a [uint64]: the low 32 bits, read as a
    signed number. *)
Definition rune_of_uint64 (x : Z) : rune :=
  ((x + 2 ^ 31) mod 2 ^ 32 - 2 ^ 31)%Z.

(** A rune literal ['c'] of the source. *)
Definition rune_lit (c : String.string) : rune :=
  fst (utf8.DecodeRuneInString (lit c)).
Arguments rune_lit c%_string_scope.

(** ** The table generator ([maketables.go]) *)

(** What [scanner.Err()] reports once [scanner.Scan()] has returned false
    for another reason than the end of the file: a line too long for the
    scanner's buffer, or an error of the reader. *)
Inductive scan_error := ErrTooLong | ErrRead.

(** [log.Fatal]/[log.Fatalf] end the program; the cause is kept.  With
    [FormatFailed] the file has been created and holds [file]; with any
    other cause no file has been created. *)
Inductive fatal :=
| BadNumber (e : strconv.NumError)   (* "%.5s...: %s" *)
| UnknownRune                        (* "%5s: Unknown rune %X" *)
| AboveMaxChar (point : rune)        (* "%5s: Rune %X > MaxChar (%X)" *)
| FieldCount (n : nat)               (* "%5s: %d fields (expected %d)" *)
| ScanFailed (e : scan_error)        (* log.Fatal(scanner.Err()) *)
| FormatFailed (file : gostring).    (* "Error formatting file %s: %v" *)

Inductive result (A : Type) :=
| Ok (a : A)
| Fatal (f : fatal).
Arguments Ok {A} a.
Arguments Fatal {A} f.

Definition bind {A B : Type} (r : result A) (k : A -> result B) : result B :=
  match r with
  | Ok a => k a
  | Fatal f => Fatal f
  end.

Notation "x <- r ;; k" := (bind r (fun x => k))
  (at level 61, r at next level, right associativity).

Definition is_fatal {A : Type} (r : result A) : bool :=
  match r with
  | Ok _ => false
  | Fatal _ => true
  end.

(** The fields of a line of [confusables.txt]. *)
Definition CSourceCodePoint : nat := 0.
Definition CTargetCodePoint : nat := 1.
Definition CType : nat := 2.
Definition NumField : nat := 3.
Definition MaxChar : rune := 0x10FFFF%Z.

(** The field separator [" ;\t"]: space, semicolon, tab. *)
Definition field_sep : gostring := [x20; x3b; x09].

Definition parsePoint (pointString line : gostring) : result rune :=
  let '(x, err) := strconv.ParseUint pointString 16 in
  let point := rune_of_uint64 x in
  match err with
  | Some e => Fatal (BadNumber e)
  | None =>
    if (point =? 0)%Z then Fatal UnknownRune
    else if (point >? MaxChar)%Z then Fatal (AboveMaxChar point)
    else Ok point
  end.

(** Type [C]: a line of the [confusables.txt] file. *)
Record C := mkC { k : rune; v : list rune }.

(** The [range] loop over the target code points, appending to
    [targetRune]. *)
Fixpoint parse_targets (targetCodePoints : list gostring) (line : gostring)
    (targetRune : list rune) : result (list rune) :=
  match targetCodePoints with
  | [] => Ok targetRune
  | targetCP :: rest =>
    p <- parsePoint targetCP line ;;
    parse_targets rest line (targetRune ++ [p])
  end.

(** [parseCharacter], with the global [confusables] passed in and out. *)
Definition parseCharacter (confusables : list C) (line : gostring)
  : result (list C) :=
  match line with
  | [] => Ok confusables
  | c0 :: _ =>
    if Byte.eqb c0 x23 then Ok confusables else
    let field := strings.Split line field_sep in
    if negb (length field =? NumField)%nat then Fatal (FieldCount (length field))
    else if negb (strings.HasPrefix (nth CType field []) (lit "MA"))
    then Ok confusables
    else
      sourceRune <- parsePoint (nth CSourceCodePoint field []) line ;;
      targetRune <- parse_targets
                      (strings.Split (nth CTargetCodePoint field []) (lit " "))
                      line [] ;;
      Ok (confusables ++ [mkC sourceRune targetRune])
  end.

(** The initial value of the global [originalHeader]. *)
Definition originalHeader0 : gostring :=
  [x0a] ++
  lit "// Following is the original header of the source confusables.txt file"
  ++ [x0a] ++ lit "//" ++ [x0a].

Definition BOM : gostring := [xef; xbb; xbf].

(** [parseHeader], with the global [originalHeader] passed in and out:
    [true] ends the header. *)
Definition parseHeader (originalHeader line : gostring) : bool * gostring :=
  let line :=
    if (3 <? length line)%nat && gostring_eqb (firstn 3 line) BOM
    then skipn 3 line else line in
  match line with
  | [] => (true, originalHeader)
  | c0 :: rest =>
    if negb (Byte.eqb c0 x23) then (true, originalHeader)
    else (false, originalHeader ++ lit "//" ++ rest ++ [x0a])
  end.

(** The first loop of [loadUnicodeData] over the lines the scanner yields:
    the header as collected and the lines the scanner has still to yield. *)
Fixpoint header_loop (originalHeader : gostring) (lines : list gostring)
  : gostring * list gostring :=
  match lines with
  | [] => (originalHeader, [])
  | line :: rest =>
    let '(stop, originalHeader') := parseHeader originalHeader line in
    if stop then (originalHeader', rest)
    else header_loop originalHeader' rest
  end.

(** The second loop of [loadUnicodeData]. *)
Fixpoint character_loop (confusables : list C) (lines : list gostring)
  : result (list C) :=
  match lines with
  | [] => Ok confusables
  | line :: rest =>
    confusables' <- parseCharacter confusables line ;;
    character_loop confusables' rest
  end.

(** The check of [scanner.Err()] behind the two loops. *)
Definition check_scanner {A : Type} (err : option scan_error) (a : A)
  : result A :=
  match err with
  | Some e => Fatal (ScanFailed e)
  | None => Ok a
  end.

(** [loadUnicodeData] on what the scanner gives for [confusables.txt]: the
    lines it yields, in order, and the error it reports behind them, if
    any.  (That [openReader] has opened the file is taken as given.) *)
Definition loadUnicodeData (lines : list gostring) (err : option scan_error)
  : result (gostring * list C) :=
  let '(originalHeader, rest) := header_loop originalHeader0 lines in
  confusables <- character_loop [] rest ;;
  check_scanner err (originalHeader, confusables).

(** One line [0x%.8X: %+q,] written to [out]: a key of the map literal and
    the string it maps to. *)
Definition entry := (rune * gostring)%type.

(** The body of the [range] loop of [makeTables] for one [c]: the lines it
    adds to [out]. *)
Definition emit (c : C) : list entry :=
  let sv := string_of_runes (v c) in
  if strings.Contains sv (lit "rn") then
    (* Avoid m -> m loop *)
    if negb (gostring_eqb (utf8.EncodeRune (k c)) (lit "m"))
    then [(k c, strings.Replace sv (lit "rn") (lit "m"))]
    else []
  else if strings.Contains sv (lit "π") then
    [(k c, strings.Replace sv (lit "π") (lit "n"))]
  else if strings.Contains sv (lit "μ") then
    [(k c, strings.Replace sv (lit "μ") (lit "u"))]
  else if strings.Contains sv (lit "χ") then
    [(k c, strings.Replace sv (lit "χ") (lit "x"))]
  else if strings.Contains sv (lit "ʀ") then
    [(k c, strings.Replace sv (lit "ʀ") (lit "R"))]
  else if strings.Contains sv (lit "ኮ") then
    [(k c, strings.Replace sv (lit "ኮ") (lit "r"))]
  else
    [(k c, sv)].

(** The lines [makeTables] writes after the loop. *)
Definition additions : list entry :=
  [ (rune_lit "ᛒ", lit "B"); (rune_lit "ｂ", lit "b");
    (rune_lit "Ｄ", lit "D"); (rune_lit "ḍ", lit "d");
    (rune_lit "ｄ", lit "d"); (rune_lit "Ｆ", lit "F");
    (rune_lit "ｆ", lit "f"); (rune_lit "Ｇ", lit "G");
    (rune_lit "ｋ", lit "k"); (rune_lit "Ｌ", lit "L");
    (rune_lit "ｍ", lit "m"); (rune_lit "ɴ", lit "N");
    (rune_lit "ｎ", lit "n"); (rune_lit "Ⴍ", lit "Q");
    (rune_lit "Ⴓ", lit "Q"); (rune_lit "Ｑ", lit "Q");
    (rune_lit "ｑ", lit "q"); (rune_lit "Ｒ", lit "R");
    (rune_lit "ʀ", lit "R"); (rune_lit "ᚱ", lit "R");
    (rune_lit "ｒ", lit "r"); (rune_lit "Ⴝ", lit "S");
    (rune_lit "ｔ", lit "t"); (rune_lit "Ա", lit "U");
    (rune_lit "Ｕ", lit "U"); (rune_lit "ｕ", lit "u");
    (rune_lit "Ｖ", lit "V"); (rune_lit "Ｗ", lit "W");
    (rune_lit "ｗ", lit "w"); (rune_lit "ｚ", lit "z");
    (rune_lit "π", lit "n") ].

(** What [makeTables] hands to [WriteGoFile]: the header comment and the
    lines of the literal [var confusablesMap = map[rune]string{ ... }]. *)
Record table := mkTable { header : gostring; entries : list entry }.

Definition makeTables (originalHeader : gostring) (confusables : list C)
  : table :=
  mkTable originalHeader (flat_map emit confusables ++ additions).

Section Output.

(** [format.Source] of [go/format], taken as given: the formatted source,
    or nothing for text that is no Go source. *)
Variable Source : gostring -> option gostring.

(** [fmt.Sprintf("0x%.8X: %+q,\n", key, s)], taken as given. *)
Variable Sprintf_entry : rune -> gostring -> gostring.

(** The constant [header] with the package name filled in. *)
Definition header_of (pkg : gostring) : gostring :=
  lit "// This file was generated by go generate; DO NOT EDIT"
  ++ [x0a; x0a] ++ lit "package " ++ pkg ++ [x0a; x0a].

(** The loop [for len(b) > 0 && b[0] == '\n' { b = b[1:] }]. *)
Fixpoint strip_newlines (b : gostring) : gostring :=
  match b with
  | [] => []
  | c :: t => if Byte.eqb c x0a then strip_newlines t else b
  end.

(** What [WriteGoFile] has written to the file when it ends, and whether
    it ends with [log.Fatalf] for text the formatter refuses.  Errors of
    the file system are left out. *)
Inductive written :=
| Formatted (file : gostring)
| FormatError (file : gostring).

Definition WriteGoFile (pkg b : gostring) : written :=
  let b := strip_newlines b in
  match Source b with
  | Some formatted => Formatted (header_of pkg ++ formatted)
  | None => FormatError (header_of pkg ++ b)
  end.

(** The text [out] that [makeTables] builds of its table: the header, the
    opening of the map literal, a line for each entry, the closing
    brace. *)
Definition out_of (t : table) : gostring :=
  header t ++ [x0a]
  ++ lit "var confusablesMap = map[rune]string{" ++ [x0a; x0a]
  ++ flat_map (fun e => Sprintf_entry (fst e) (snd e)) (entries t)
  ++ lit "}" ++ [x0a].

(** The end of [makeTables]: [WriteGoFile("tables.go", "confusables",
    []byte(out))]; the contents of [tables.go], or the fatal error. *)
Definition write_tables (t : table) : result gostring :=
  match WriteGoFile (lit "confusables") (out_of t) with
  | Formatted file => Ok file
  | FormatError file => Fatal (FormatFailed file)
  end.

(** [main]: load, make the table, write it.  The value is the contents of
    [tables.go] when the program ends in order. *)
Definition main (lines : list gostring) (err : option scan_error)
  : result gostring :=
  loaded <- loadUnicodeData lines err ;;
  write_tables (makeTables (fst loaded) (snd loaded)).

End Output.

(** The map the literal denotes: the string written for a key. *)
Fixpoint lookup (es : list entry) (r : rune) : option gostring :=
  match es with
  | [] => None
  | (key, s) :: rest => if (key =? r)%Z then Some s else lookup rest r
  end.

(** A line [source ; target ; tag] of [confusables.txt]. *)
Definition dataline (source target tag : String.string) : gostring :=
  lit source ++ field_sep ++ lit target ++ field_sep ++ lit tag.
Arguments dataline (source target tag)%_string_scope.

(** ** The generator in the words of the specification *)

(** The override rules, in their order: what to look for in the target and
    what to write for it. *)
Definition override_rules : list (gostring * gostring) :=
  [ (lit "rn", lit "m"); (lit "π", lit "n"); (lit "μ", lit "u");
    (lit "χ", lit "x"); (lit "ʀ", lit "R"); (lit "ኮ", lit "r") ].

(** The first rule whose pattern occurs in the target. *)
Definition first_match (target : gostring) : option (gostring * gostring) :=
  find (fun rule => strings.Contains target (fst rule)) override_rules.

(** The replacement string of one entry under the first matching rule;
    nothing for the source "m" under the "rn" rule. *)
Definition override_spec (c : C) : option entry :=
  let target := string_of_runes (v c) in
  match first_match target with
  | Some (old, new) =>
    if gostring_eqb old (lit "rn") && (k c =? 0x6D)%Z then None
    else Some (k c, strings.Replace target old new)
  | None => Some (k c, target)
  end.

Definition option_list {A : Type} (o : option A) : list A :=
  match o with
  | Some a => [a]
  | None => []
  end.

(** A blank line or a comment line. *)
Definition blank_or_comment (line : gostring) : bool :=
  match line with
  | [] => true
  | c0 :: _ => Byte.eqb c0 x23
  end.

(** All the code points of a target field, or the first fatal error. *)
Fixpoint parse_all (codePoints : list gostring) (line : gostring)
  : result (list rune) :=
  match codePoints with
  | [] => Ok []
  | cp :: rest =>
    p <- parsePoint cp line ;;
    ps <- parse_all rest line ;;
    Ok (p :: ps)
  end.

(** A violation on a line that reaches the line parser: a wrong number of
    fields on a line that is neither blank nor a comment, or, on a line
    tagged MA, a code point that [parsePoint] rejects. *)
Definition violation (line : gostring) : bool :=
  negb (blank_or_comment line) &&
  let field := strings.Split line field_sep in
  (negb (length field =? NumField)%nat ||
   (strings.HasPrefix (nth CType field []) (lit "MA") &&
    (is_fatal (parsePoint (nth CSourceCodePoint field []) line) ||
     is_fatal (parse_all
                 (strings.Split (nth CTargetCodePoint field []) (lit " "))
                 line)))).

(** A line ends the header when, a leading byte order mark set aside, it
    is empty or does not start with '#'. *)
Definition ends_header (line : gostring) : bool :=
  let line := if strings.HasPrefix line BOM then skipn 3 line else line in
  match line with
  | [] => true
  | c0 :: _ => negb (Byte.eqb c0 x23)
  end.

(** The number a string of hexadecimal digits denotes; nothing for the
    empty string and for a string with any other character. *)
Definition hex_digit (c : byte) : option Z :=
  let z := byteZ c in
  if (0x30 <=? z)%Z && (z <=? 0x39)%Z then Some (z - 0x30)%Z
  else if (0x41 <=? z)%Z && (z <=? 0x46)%Z then Some (z - 0x41 + 10)%Z
  else if (0x61 <=? z)%Z && (z <=? 0x66)%Z then Some (z - 0x61 + 10)%Z
  else None.

Fixpoint hex_value_from (acc : Z) (s : gostring) : option Z :=
  match s with
  | [] => Some acc
  | c :: t =>
    match hex_digit c with
    | Some d => hex_value_from (16 * acc + d)%Z t
    | None => None
    end
  end.

Definition hex_value (s : gostring) : option Z :=
  match s with
  | [] => None
  | _ => hex_value_from 0 s
  end.

(** ** The skeleton engine ([confusables.go]) *)

Definition inspect {A : Type} (a : A) : {b : A | a = b} := exist _ a eq_refl.

(** Every rune that [DecodeRuneInString] reads from a non-empty string is
    at least one byte wide and lies within the string. *)
Lemma DecodeRuneInString_width (s : gostring) :
  s <> [] ->
  (1 <= snd (utf8.DecodeRuneInString s) <= length s)%nat.
Proof.
  intros Hs. unfold utf8.DecodeRuneInString.
  destruct s as [|b0 t]; [congruence|].
  destruct (utf8.first (byteZ b0)) as [[sz [lo hi]]|].
  2:{ destruct (byteZ b0 <? 128)%Z; simpl; lia. }
  destruct (length (b0 :: t) <? sz)%nat; [simpl; lia|].
  destruct t as [|b1 t1]; [simpl; lia|].
  destruct (negb (utf8.in_range lo hi b1)); [simpl; lia|].
  destruct (sz <=? 2)%nat; [simpl; lia|].
  destruct t1 as [|b2 t2]; [simpl; lia|].
  destruct (negb (utf8.in_range 128 191 b2)); [simpl; lia|].
  destruct (sz <=? 3)%nat; [simpl; lia|].
  destruct t2 as [|b3 t3]; [simpl; lia|].
  destruct (negb (utf8.in_range 128 191 b3)); simpl; lia.
Qed.

Lemma slice_Some (s : gostring) (lo hi : nat) :
  (lo <= hi <= length s)%nat ->
  slice s lo hi = Some (firstn (hi - lo) (skipn lo s)).
Proof.
  intros [H1 H2]. unfold slice.
  apply Nat.leb_le in H1. apply Nat.leb_le in H2.
  rewrite H1, H2. reflexivity.
Qed.

Lemma slice_from_Some (s : gostring) (lo : nat) :
  (lo <= length s)%nat -> slice_from s lo = Some (skipn lo s).
Proof.
  intros H. unfold slice_from. rewrite slice_Some by lia.
  rewrite firstn_all2; [reflexivity|]. rewrite length_skipn. lia.
Qed.

Lemma slice_to_Some (s : gostring) (hi : nat) :
  (hi <= length s)%nat -> slice_to s hi = Some (firstn hi s).
Proof.
  intros H. unfold slice_to. rewrite slice_Some by lia.
  rewrite Nat.sub_0_r. reflexivity.
Qed.

Lemma slice_inv (s : gostring) (lo hi : nat) (r : gostring) :
  slice s lo hi = Some r ->
  (lo <= hi <= length s)%nat /\ r = firstn (hi - lo) (skipn lo s).
Proof.
  unfold slice. intros H.
  destruct (lo <=? hi)%nat eqn:E1; [|discriminate].
  destruct (hi <=? length s)%nat eqn:E2; [|discriminate].
  apply Nat.leb_le in E1. apply Nat.leb_le in E2.
  simpl in H. injection H as <-. split; [lia|reflexivity].
Qed.

Section Engine.

(** The normaliser [norm.NFKD.String] of [golang.org/x/text] and the
    generated table [confusablesMap] of [tables.go] are taken as given. *)
Variable NFKD : gostring -> gostring.
Variable confusablesMap : rune -> option gostring.

(** One run of the body of the [for] loop at position [i] of the working
    string [s]: the new working string and the step [w].  [None] is a
    run-time panic of one of the slice expressions. *)
Definition loop_body (s : gostring) (i : nat) : option (gostring * nat) :=
  match slice_from s i with
  | None => None
  | Some rest =>
    let '(char, width) := utf8.DecodeRuneInString rest in
    match confusablesMap char with
    | Some replacement =>
      match slice_to s i, slice_from s (i + width) with
      | Some before, Some after =>
        Some (before ++ replacement ++ after, length replacement)
      | _, _ => None
      end
    | None => Some (s, width)
    end
  end.

(** What is left to scan: [len(s) - i]. *)
Definition unscanned (s : gostring) (i : nat) : nat := length s - i.

(** What the scan leaves in the working string for the rune at the head of
    [rest]: the replacement of a key, the rune's own bytes otherwise. *)
Definition emitted (rest : gostring) : gostring :=
  let '(char, width) := utf8.DecodeRuneInString rest in
  match confusablesMap char with
  | Some replacement => replacement
  | None => firstn width rest
  end.

Definition width_at (s : gostring) (i : nat) : nat :=
  snd (utf8.DecodeRuneInString (skipn i s)).

Lemma skipn_nonempty (s : gostring) (i : nat) :
  (i < length s)%nat -> skipn i s <> [].
Proof.
  intros Hi E. apply (f_equal (@length byte)) in E.
  rewrite length_skipn in E. simpl in E. lia.
Qed.

Lemma width_at_bounds (s : gostring) (i : nat) :
  (i < length s)%nat -> (1 <= width_at s i /\ i + width_at s i <= length s)%nat.
Proof.
  intros Hi. unfold width_at.
  pose proof (DecodeRuneInString_width _ (skipn_nonempty s i Hi)) as Hw.
  rewrite length_skipn in Hw. lia.
Qed.

(** Inside the string the body never panics; it rewrites the prefix up to
    the new position into the old prefix followed by [emitted], and leaves
    the text after the rune it read untouched. *)
Lemma loop_body_ok (s : gostring) (i : nat) :
  (i < length s)%nat ->
  exists s' w,
    loop_body s i = Some (s', w) /\
    firstn (i + w) s' = firstn i s ++ emitted (skipn i s) /\
    skipn (i + w) s' = skipn (i + width_at s i) s /\
    (i + w <= length s')%nat.
Proof.
  intros Hi. pose proof (width_at_bounds s i Hi) as [Hw1 Hw2].
  unfold loop_body, emitted, width_at in *.
  rewrite slice_from_Some by lia.
  destruct (utf8.DecodeRuneInString (skipn i s)) as [char width] eqn:Ed.
  simpl in Hw1, Hw2 |- *.
  destruct (confusablesMap char) as [replacement|].
  - rewrite slice_to_Some, slice_from_Some by lia.
    eexists _, _. split; [reflexivity|].
    assert (Hl : length (firstn i s ++ replacement) = (i + length replacement)%nat).
    { rewrite length_app, length_firstn. lia. }
    rewrite app_assoc. repeat split.
    + rewrite <- Hl. rewrite firstn_app, firstn_all, Nat.sub_diag.
      simpl. rewrite app_nil_r. reflexivity.
    + rewrite <- Hl. rewrite skipn_app, skipn_all, Nat.sub_diag.
      reflexivity.
    + rewrite length_app. lia.
  - eexists _, _. split; [reflexivity|]. repeat split; try lia.
    rewrite <- (firstn_skipn i (firstn (i + width) s)) at 1.
    rewrite firstn_firstn, Nat.min_l by lia.
    f_equal. rewrite skipn_firstn_comm. f_equal. lia.
Qed.

(** The body shortens what is left to scan by the width of the rune it
    read, whether it substituted or not. *)
Lemma loop_body_unscanned (s s' : gostring) (i w : nat) :
  (i < length s)%nat ->
  loop_body s i = Some (s', w) ->
  (1 <= width_at s i)%nat /\
  (unscanned s' (i + w) + width_at s i = unscanned s i)%nat.
Proof.
  intros Hi Hb.
  destruct (loop_body_ok s i Hi) as (s1 & w1 & Hb1 & _ & Hk & _).
  rewrite Hb in Hb1. injection Hb1 as <- <-.
  pose proof (width_at_bounds s i Hi) as [Hw1 Hw2].
  apply (f_equal (@length byte)) in Hk. rewrite !length_skipn in Hk.
  unfold unscanned. lia.
Qed.

(** The loop [for i, w := 0, 0; i < len(s); i += w { ... }] from the
    position [i] on; the value is the working string at loop exit. *)
Equations? scan (s : gostring) (i : nat) : option gostring
  by wf (unscanned s i) lt :=
  scan s i with inspect (i <? length s)%nat := {
    | exist _ false _ := Some s;
    | exist _ true Hlt with inspect (loop_body s i) := {
      | exist _ None _ := None;
      | exist _ (Some (s', w)) Hb := scan s' (i + w)%nat } }.
Proof.
  apply Nat.ltb_lt in Hlt.
  pose proof (loop_body_unscanned s s' i w Hlt Hb) as H. lia.
Qed.

(** The runs of the loop, counted: [runs s i n r] when the loop entered at
    position [i] of [s] runs its body [n] times and exits with [r]. *)
Inductive runs : gostring -> nat -> nat -> gostring -> Prop :=
| runs_exit s i :
    (i <? length s)%nat = false -> runs s i 0 s
| runs_body s i s' w n r :
    (i <? length s)%nat = true ->
    loop_body s i = Some (s', w) ->
    runs s' (i + w) n r ->
    runs s i (S n) r.

(** [Skeleton]: normalise, substitute, normalise. *)
Definition Skeleton (s : gostring) : option gostring :=
  match scan (NFKD s) 0 with
  | Some s' => Some (NFKD s')
  | None => None
  end.

(** Step 2 of the algorithm in the words of the specification: the runes of
    the intermediate string are read left to right; a rune that is a key is
    replaced by its replacement, any other rune stays as it is, and the scan
    resumes behind the text just written, that is, at the next rune of the
    intermediate string. *)
Equations? substitute_spec (rest : gostring) : gostring
  by wf (length rest) lt :=
  substitute_spec [] := [];
  substitute_spec (b :: t) :=
    emitted (b :: t) ++
    substitute_spec (skipn (snd (utf8.DecodeRuneInString (b :: t))) (b :: t)).
Proof.
  assert (H : b :: t <> []) by discriminate.
  pose proof (DecodeRuneInString_width _ H) as Hw.
  rewrite length_skipn. cbn [length] in *. lia.
Qed.

Definition skeleton_spec (s : gostring) : gostring :=
  NFKD (substitute_spec (NFKD s)).

(** No rune of [rest] is a key of the map. *)
Equations? key_free (rest : gostring) : bool
  by wf (length rest) lt :=
  key_free [] := true;
  key_free (b :: t) :=
    match confusablesMap (fst (utf8.DecodeRuneInString (b :: t))) with
    | Some _ => false
    | None => key_free (skipn (snd (utf8.DecodeRuneInString (b :: t))) (b :: t))
    end.
Proof.
  assert (H : b :: t <> []) by discriminate.
  pose proof (DecodeRuneInString_width _ H) as Hw.
  rewrite length_skipn. cbn [length] in *. lia.
Qed.

(** ** Properties of the engine *)

Lemma scan_exit (s : gostring) (i : nat) :
  (i <? length s)%nat = false -> scan s i = Some s.
Proof.
  intros H. simp scan.
  destruct (inspect (i <? length s)%nat) as [[] E]; [congruence|].
  simp scan. reflexivity.
Qed.

Lemma scan_step (s s' : gostring) (i w : nat) :
  (i <? length s)%nat = true ->
  loop_body s i = Some (s', w) ->
  scan s i = scan s' (i + w).
Proof.
  intros H Hb. simp scan.
  destruct (inspect (i <? length s)%nat) as [[] E]; [|congruence].
  simp scan.
  destruct (inspect (loop_body s i)) as [[[s1 w1]|] E1]; [|congruence].
  simp scan. rewrite Hb in E1. injection E1 as <- <-. reflexivity.
Qed.

Lemma substitute_spec_skipn (s : gostring) (i : nat) :
  (i < length s)%nat ->
  substitute_spec (skipn i s) =
  emitted (skipn i s) ++ substitute_spec (skipn (i + width_at s i) s).
Proof.
  intros Hi. pose proof (skipn_nonempty s i Hi) as Hne.
  unfold width_at. rewrite Nat.add_comm, <- skipn_skipn.
  destruct (skipn i s) as [|b t]; [congruence|].
  simp substitute_spec. reflexivity.
Qed.

(** The loop, entered anywhere inside the string, exits after at most
    [unscanned] runs of its body, without a panic, and with the text before
    [i] followed by the substituted rest. *)
Lemma scan_runs (n : nat) :
  forall (s : gostring) (i : nat),
    (i <= length s)%nat -> (unscanned s i <= n)%nat ->
    exists k,
      (k <= unscanned s i)%nat /\
      runs s i k (firstn i s ++ substitute_spec (skipn i s)) /\
      scan s i = Some (firstn i s ++ substitute_spec (skipn i s)).
Proof.
  induction n as [|n IH]; intros s i Hi Hn; unfold unscanned in *.
  - assert (i = length s) by lia. subst i.
    assert (Hlt : (length s <? length s)%nat = false) by (apply Nat.ltb_irrefl).
    rewrite skipn_all, firstn_all. simp substitute_spec. rewrite app_nil_r.
    exists 0%nat. split; [lia|]. split; [constructor; exact Hlt|].
    apply scan_exit. exact Hlt.
  - destruct (i <? length s)%nat eqn:Hlt.
    + apply Nat.ltb_lt in Hlt.
      destruct (loop_body_ok s i Hlt) as (s' & w & Hb & Hf & Hk & Hle).
      pose proof (loop_body_unscanned s s' i w Hlt Hb) as [Hw1 Hw2].
      unfold unscanned in Hw2.
      destruct (IH s' (i + w)%nat Hle ltac:(lia)) as (k & Hk1 & Hk2 & Hk3).
      rewrite Hf, Hk in Hk2, Hk3.
      rewrite (substitute_spec_skipn s i Hlt), app_assoc.
      exists (S k). split; [lia|]. split.
      * econstructor; [apply Nat.ltb_lt; exact Hlt|exact Hb|exact Hk2].
      * rewrite <- Hk3. apply scan_step; [apply Nat.ltb_lt; exact Hlt|exact Hb].
    + apply Nat.ltb_ge in Hlt. assert (i = length s) by lia. subst i.
      assert (Hlt' : (length s <? length s)%nat = false) by (apply Nat.ltb_irrefl).
      rewrite skipn_all, firstn_all. simp substitute_spec. rewrite app_nil_r.
      exists 0%nat. split; [lia|]. split; [constructor; exact Hlt'|].
      apply scan_exit. exact Hlt'.
Qed.

End Engine.

(** ** The models at work *)

Example decode_ascii : utf8.DecodeRuneInString (lit "pay") = (0x70%Z, 1).
Proof. reflexivity. Qed.
Example decode_pi : utf8.DecodeRuneInString (lit "π") = (0x3C0%Z, 2).
Proof. reflexivity. Qed.
Example decode_ko : utf8.DecodeRuneInString (lit "ኮ") = (0x12AE%Z, 3).
Proof. reflexivity. Qed.
Example decode_math : utf8.DecodeRuneInString (lit "𝓅") = (0x1D4C5%Z, 4).
Proof. reflexivity. Qed.
Example encode_pi : utf8.EncodeRune 0x3C0%Z = lit "π".
Proof. reflexivity. Qed.
Example encode_math : utf8.EncodeRune 0x1D4C5%Z = lit "𝓅".
Proof. reflexivity. Qed.
Example encode_surrogate : utf8.EncodeRune 0xD800%Z = lit "�".
Proof. reflexivity. Qed.

Example split_fields :
  strings.Split (lit "309C ;" ++ [x09] ++ lit "030A ;" ++ [x09] ++ lit "SL")
                (lit " ;" ++ [x09])
  = [lit "309C"; lit "030A"; lit "SL"].
Proof. reflexivity. Qed.
Example split_trailing : strings.Split (lit "a b ") (lit " ") = [lit "a"; lit "b"; []].
Proof. reflexivity. Qed.
Example split_empty : strings.Split [] (lit " ") = [[]].
Proof. reflexivity. Qed.
Example replace_rn :
  strings.Replace (lit "rnrrnn") (lit "rn") (lit "m") = lit "mrmn".
Proof. reflexivity. Qed.
Example parse_hex : strconv.ParseUint (lit "1d4C5") 16 = (0x1D4C5%Z, None).
Proof. reflexivity. Qed.
Example parse_hex_syntax :
  strconv.ParseUint (lit "12G") 16 = (0%Z, Some strconv.ErrSyntax).
Proof. reflexivity. Qed.
Example parse_hex_range :
  strconv.ParseUint (lit "10000000000000000") 16
  = (strconv.maxUint64, Some strconv.ErrRange).
Proof. reflexivity. Qed.

Example additions_codes :
  map fst additions =
  [0x16D2; 0xFF42; 0xFF24; 0x1E0D; 0xFF44; 0xFF26; 0xFF46; 0xFF27; 0xFF4B;
   0xFF2C; 0xFF4D; 0x0274; 0xFF4E; 0x10AD; 0x10B3; 0xFF31; 0xFF51; 0xFF32;
   0x0280; 0x16B1; 0xFF52; 0x10BD; 0xFF54; 0x0531; 0xFF35; 0xFF55; 0xFF36;
   0xFF37; 0xFF57; 0xFF5A; 0x03C0]%Z.
Proof. reflexivity. Qed.

Example parse_line_MA :
  parseCharacter [] (dataline "217F" "0072 006E" "MA")
  = Ok [mkC 0x217F%Z [0x72; 0x6E]%Z].
Proof. reflexivity. Qed.

Example emit_rn : emit (mkC 0x217F%Z [0x72; 0x6E]%Z) = [(0x217F%Z, lit "m")].
Proof. reflexivity. Qed.
Example emit_m : emit (mkC 0x6D%Z [0x72; 0x6E]%Z) = [].
Proof. reflexivity. Qed.
Example emit_micro : emit (mkC 0xB5%Z [0x3BC]%Z) = [(0xB5%Z, lit "u")].
Proof. reflexivity. Qed.
(** A target with "rn" and "π": the first rule alone is applied. *)
Example emit_rn_before_pi :
  emit (mkC 0x2118%Z [0x72; 0x6E; 0x3C0]%Z) = [(0x2118%Z, lit "mπ")].
Proof. reflexivity. Qed.
(** A target with "μ" and "χ": "μ" is looked for first. *)
Example emit_mu_before_chi :
  emit (mkC 0x2118%Z [0x3C7; 0x3BC; 0x3BC]%Z) = [(0x2118%Z, lit "χuu")].
Proof. reflexivity. Qed.
Example header_line :
  parseHeader originalHeader0 (BOM ++ lit "# confusables.txt")
  = (false, originalHeader0 ++ lit "// confusables.txt" ++ [x0a]).
Proof. reflexivity. Qed.
Example header_end_blank : parseHeader originalHeader0 [] = (true, originalHeader0).
Proof. reflexivity. Qed.
Example parsePoint_zero :
  parsePoint (lit "0000") (dataline "0000" "0061" "MA") = Fatal UnknownRune.
Proof. reflexivity. Qed.

(** ** The engine against the specification *)

(** The normaliser on text without any decomposable character, ASCII text
    in particular: such text is its own NFKD form. *)
Definition NFKD_plain (s : gostring) : gostring := s.

(** A data set whose replacements are keys themselves, and the table the
    generator makes of it. *)
Definition chain_lines : list gostring :=
  [ lit "# confusables.txt"; [];
    dataline "0041" "0042" "MA"; dataline "0042" "0043" "MA" ].

Definition table_of (lines : list gostring) : rune -> option gostring :=
  match loadUnicodeData lines None with
  | Ok loaded => lookup (entries (makeTables (fst loaded) (snd loaded)))
  | Fatal _ => fun _ => None
  end.

(** A data set with the Cyrillic letters of a spoofed "paypal". *)
Definition cyrillic_lines : list gostring :=
  [ lit "# confusables.txt"; [];
    dataline "0430" "0061" "MA"; dataline "0440" "0070" "MA";
    dataline "0443" "0079" "MA" ].

Example chain_table :
  option_map (fun loaded => entries (makeTables (fst loaded) (snd loaded)))
    (match loadUnicodeData chain_lines None with
     | Ok loaded => Some loaded
     | Fatal _ => None
     end)
  = Some ([(0x41, lit "B"); (0x42, lit "C")]%Z ++ additions).
Proof. reflexivity. Qed.

Example skeleton_cyrillic :
  Skeleton NFKD_plain (table_of cyrillic_lines) (lit "раура1")
  = Some (lit "paypa1").
Proof. vm_compute. reflexivity. Qed.

Section EngineClaims.

Variable NFKD : gostring -> gostring.
Variable confusablesMap : rune -> option gostring.

(** Inside the string, the body of the loop writes the replacement in
    place of a key and steps by the length of the replacement; it leaves
    any other rune and steps by the width of that rune. *)
Lemma loop_body_in_place (t : gostring) (i : nat) :
  (i < length t)%nat ->
  loop_body confusablesMap t i =
  Some (let '(char, width) := utf8.DecodeRuneInString (skipn i t) in
        match confusablesMap char with
        | Some replacement =>
          (firstn i t ++ replacement ++ skipn (i + width) t,
           length replacement)
        | None => (t, width)
        end).
Proof.
  intros Hi. pose proof (width_at_bounds t i Hi) as [_ Hw].
  unfold loop_body, width_at in *.
  rewrite slice_from_Some by lia.
  destruct (utf8.DecodeRuneInString (skipn i t)) as [char width].
  simpl in Hw.
  destruct (confusablesMap char) as [replacement|]; [|reflexivity].
  rewrite slice_to_Some, slice_from_Some by lia. reflexivity.
Qed.

Lemma Skeleton_eq_spec (s : gostring) :
  Skeleton NFKD confusablesMap s = Some (skeleton_spec NFKD confusablesMap s).
Proof.
  unfold Skeleton, skeleton_spec.
  destruct (scan_runs confusablesMap (length (NFKD s)) (NFKD s) 0)
    as (n & _ & _ & Hscan); [lia | unfold unscanned; lia |].
  rewrite Hscan. reflexivity.
Qed.

(** C1: [Skeleton] is the specification's three steps: normalise; read the
    runes of the intermediate string left to right, replacing each key by
    its replacement and keeping every other rune, the scan resuming behind
    the text written; normalise again.  Each run of the loop body does the
    replacement in place and steps by the length of the replacement, or
    leaves the rune and steps by its width. *)
Theorem Skeleton_refines_spec :
  (forall s,
      Skeleton NFKD confusablesMap s
      = Some (skeleton_spec NFKD confusablesMap s)) /\
  (forall t i,
      (i < length t)%nat ->
      loop_body confusablesMap t i =
      Some (let '(char, width) := utf8.DecodeRuneInString (skipn i t) in
            match confusablesMap char with
            | Some replacement =>
              (firstn i t ++ replacement ++ skipn (i + width) t,
               length replacement)
            | None => (t, width)
            end)).
Proof.
  split; [exact Skeleton_eq_spec | exact loop_body_in_place].
Qed.

(** C8: [Skeleton] returns a string for every input, and the empty string
    for the empty string (the normaliser maps the empty string to itself). *)
Theorem Skeleton_total :
  (forall s, exists r, Skeleton NFKD confusablesMap s = Some r) /\
  (NFKD [] = [] -> Skeleton NFKD confusablesMap [] = Some []).
Proof.
  split.
  - intros s. eexists. apply Skeleton_eq_spec.
  - intros Hnil. rewrite Skeleton_eq_spec. unfold skeleton_spec.
    rewrite Hnil. simp substitute_spec. rewrite Hnil. reflexivity.
Qed.

(** C10: the loop ends for every input and every map, empty replacements
    included: each run of the body shortens what is left to scan by the
    width of the rune it read, so the body runs at most as often as the
    normalised input has bytes. *)
Theorem scan_terminates (s : gostring) :
  (exists n r,
      runs confusablesMap (NFKD s) 0 n r /\
      (n <= length (NFKD s))%nat /\
      scan confusablesMap (NFKD s) 0 = Some r) /\
  (forall t i t' w,
      (i < length t)%nat ->
      loop_body confusablesMap t i = Some (t', w) ->
      (1 <= width_at t i)%nat /\
      (unscanned t' (i + w) + width_at t i = unscanned t i)%nat /\
      (unscanned t' (i + w) < unscanned t i)%nat).
Proof.
  split.
  - destruct (scan_runs confusablesMap (length (NFKD s)) (NFKD s) 0)
      as (n & Hn & Hruns & Hscan); [lia | unfold unscanned; lia |].
    exists n, (firstn 0 (NFKD s) ++
               substitute_spec confusablesMap (skipn 0 (NFKD s))).
    unfold unscanned in Hn. repeat split; [exact Hruns | lia | exact Hscan].
  - intros t i t' w Hi Hb.
    pose proof (loop_body_unscanned confusablesMap t t' i w Hi Hb) as [H1 H2].
    repeat split; lia.
Qed.

End EngineClaims.

Section Idempotence.

Variable NFKD : gostring -> gostring.
Variable confusablesMap : rune -> option gostring.

(** A string without keys passes the substitution unchanged. *)
Lemma substitute_key_free (n : nat) :
  forall t, (length t <= n)%nat ->
    key_free confusablesMap t = true ->
    substitute_spec confusablesMap t = t.
Proof.
  induction n as [|n IH]; intros [|b t] Hlen Hfree;
    simp substitute_spec; try reflexivity.
  - simpl in Hlen. lia.
  - simp key_free in Hfree. unfold emitted.
    assert (Hne : b :: t <> []) by discriminate.
    pose proof (DecodeRuneInString_width _ Hne) as Hw.
    destruct (utf8.DecodeRuneInString (b :: t)) as [char width].
    cbn [fst snd length] in *.
    destruct (confusablesMap char); [discriminate|].
    rewrite IH; [apply firstn_skipn | | exact Hfree].
    rewrite length_skipn. cbn [length]. lia.
Qed.

(** C2, as amended: with an idempotent normaliser, the skeleton of a
    skeleton is that skeleton whenever the skeleton holds no rune that is a
    key of the map. *)
Theorem Skeleton_idempotent_key_free (s r : gostring) :
  (forall x, NFKD (NFKD x) = NFKD x) ->
  Skeleton NFKD confusablesMap s = Some r ->
  key_free confusablesMap r = true ->
  Skeleton NFKD confusablesMap r = Some r.
Proof.
  intros Hidem Hs Hfree.
  rewrite Skeleton_eq_spec in Hs |- *. injection Hs as Hr.
  unfold skeleton_spec in *.
  assert (HN : NFKD r = r) by (rewrite <- Hr; apply Hidem).
  rewrite HN, (substitute_key_free (length r) r (le_n _) Hfree), HN.
  reflexivity.
Qed.

End Idempotence.

(** C2 fails: on the table the generator makes of [chain_lines] the
    skeleton of "A" is "B", and the skeleton of "B" is "C".  The strings
    are ASCII, which NFKD leaves as they are. *)
Lemma Skeleton_not_idempotent :
  let Sk := Skeleton NFKD_plain (table_of chain_lines) in
  Sk (lit "A") = Some (lit "B") /\
  Sk (lit "B") = Some (lit "C") /\
  Sk (lit "B") <> Some (lit "B").
Proof.
  repeat split; try (vm_compute; reflexivity).
  vm_compute. discriminate.
Qed.

Lemma Skeleton_idempotent_key_free_witness :
  Skeleton NFKD_plain (table_of cyrillic_lines) (lit "paypa1")
  = Some (lit "paypa1").
Proof.
  apply (Skeleton_idempotent_key_free NFKD_plain (table_of cyrillic_lines)
           (lit "раура1") (lit "paypa1")).
  - intros x. reflexivity.
  - vm_compute. reflexivity.
  - vm_compute. reflexivity.
Defined.

Lemma Skeleton_refines_spec_witness :
  loop_body (table_of cyrillic_lines) (lit "xрy") 1
  = Some (lit "xpy", 1%nat).
Proof.
  apply (proj2 (Skeleton_refines_spec NFKD_plain (table_of cyrillic_lines))
           (lit "xрy") 1%nat).
  vm_compute. lia.
Defined.

Lemma Skeleton_total_witness :
  Skeleton NFKD_plain (table_of cyrillic_lines) [] = Some [].
Proof.
  apply (proj2 (Skeleton_total NFKD_plain (table_of cyrillic_lines))).
  reflexivity.
Defined.

Lemma scan_terminates_witness :
  (unscanned (lit "xpy") 2 < unscanned (lit "xрy") 1)%nat.
Proof.
  apply (proj2 (scan_terminates NFKD_plain (table_of cyrillic_lines) [])
           (lit "xрy") 1%nat (lit "xpy") 1%nat).
  - vm_compute. lia.
  - vm_compute. reflexivity.
Defined.

(** ** The generator against the specification *)

Lemma byteZ_byte_of_Z (z : Z) :
  (0 <= z < 256)%Z -> byteZ (byte_of_Z z) = z.
Proof.
  intros Hz. unfold byte_of_Z, byteZ. rewrite Z.mod_small by lia.
  destruct (Byte.of_N (Z.to_N z)) as [b|] eqn:E.
  - apply Byte.to_of_N in E. rewrite E. lia.
  - apply Byte.of_N_None_iff in E. lia.
Qed.

(** [string(r) == "m"] holds for the rune of the letter m only. *)
Lemma EncodeRune_is_m (r : rune) :
  gostring_eqb (utf8.EncodeRune r) (lit "m") = (r =? 0x6D)%Z.
Proof.
  unfold utf8.EncodeRune.
  destruct ((0 <=? r)%Z && (r <=? 0x7F)%Z) eqn:E1.
  - apply andb_true_iff in E1 as [H0 H1].
    apply Z.leb_le in H0. apply Z.leb_le in H1.
    change (lit "m") with [x6d]. cbn [gostring_eqb]. rewrite andb_true_r.
    destruct (r =? 0x6D)%Z eqn:E.
    + apply Z.eqb_eq in E. subst r. reflexivity.
    + destruct (Byte.eqb (byte_of_Z r) x6d) eqn:Eb; [|reflexivity].
      apply Byte.byte_dec_bl in Eb. apply (f_equal byteZ) in Eb.
      rewrite byteZ_byte_of_Z in Eb by lia.
      apply Z.eqb_neq in E. vm_compute in Eb. contradiction.
  - assert (Hr : (r =? 0x6D)%Z = false).
    { apply Z.eqb_neq. intros ->. discriminate. }
    rewrite Hr. change (lit "m") with [x6d].
    repeat match goal with
           | |- context [if ?b then _ else _] => destruct b
           end; cbn [gostring_eqb]; apply andb_false_r.
Qed.

(** The cascade of [makeTables] is the first matching rule of the ordered
    list. *)
Lemma emit_override_spec (c : C) : emit c = option_list (override_spec c).
Proof.
  unfold emit, override_spec, first_match, override_rules.
  rewrite EncodeRune_is_m.
  set (sv := string_of_runes (v c)). cbn [find fst].
  destruct (strings.Contains sv (lit "rn")).
  { change (gostring_eqb (lit "rn") (lit "rn")) with true.
    destruct (k c =? 0x6D)%Z; reflexivity. }
  repeat match goal with
         | |- context [strings.Contains sv ?p] =>
           destruct (strings.Contains sv p); [reflexivity|]
         end.
  reflexivity.
Qed.

(** C3: [makeTables] writes, for the entries in input order, what the
    ordered rules rn, π, μ, χ, ʀ, ኮ give under first match wins: the first
    rule whose pattern occurs in the target replaces every occurrence of
    it and no later rule is tried; the "rn" rule drops the entry whose
    source is the letter m; without a match the target is written as it
    is. *)
Theorem makeTables_first_match (originalHeader : gostring)
    (confusables : list C) :
  entries (makeTables originalHeader confusables)
  = flat_map (fun c => option_list (override_spec c)) confusables
    ++ additions.
Proof.
  unfold makeTables. cbn [entries]. f_equal.
  apply flat_map_ext. exact emit_override_spec.
Qed.

(** A line whose source code point has more than 32 bits. *)
Definition wide_line : gostring := dataline "100000041" "0042" "MA".
Definition minus_line : gostring := dataline "FFFFFFFF" "0042" "MA".

(** C4: [parsePoint] converts the parsed [uint64] to a [rune] before it
    compares with [MaxChar], so hexadecimal values above 0x10FFFF whose low
    32 bits look like a small or a negative number are not rejected:
    100000041 is read as U+0041 and FFFFFFFF as the rune -1, and the
    generator goes on to write a table with them. *)
Theorem parsePoint_truncates :
  hex_value (lit "100000041") = Some 0x100000041%Z /\
  parsePoint (lit "100000041") wide_line = Ok 0x41%Z /\
  hex_value (lit "FFFFFFFF") = Some 0xFFFFFFFF%Z /\
  parsePoint (lit "FFFFFFFF") minus_line = Ok (-1)%Z /\
  parseCharacter [] minus_line = Ok [mkC (-1)%Z [0x42%Z]] /\
  parsePoint (lit "110000") (dataline "110000" "0042" "MA")
  = Fatal (AboveMaxChar 0x110000%Z).
Proof. repeat split; vm_compute; reflexivity. Qed.

(** The header test of the code and of the specification agree: the code
    leaves a line that is just the byte order mark as it is, and that line
    does not start with '#' either. *)
Lemma parseHeader_ends_header (originalHeader line : gostring) :
  fst (parseHeader originalHeader line) = ends_header line.
Proof.
  unfold parseHeader, ends_header, BOM.
  destruct line as [|a [|b [|c [|d l]]]]; cbn [strings.HasPrefix firstn length].
  - reflexivity.
  - rewrite andb_false_r. cbn. destruct (Byte.eqb a x23); reflexivity.
  - rewrite !andb_false_r. cbn. destruct (Byte.eqb a x23); reflexivity.
  - change (3 <? 3)%nat with false. cbn [andb gostring_eqb].
    destruct (Byte.eqb a xef) eqn:Ea; cbn [andb].
    + apply Byte.byte_dec_bl in Ea. subst a.
      destruct (Byte.eqb b xbb && (Byte.eqb c xbf && true)); reflexivity.
    + destruct (Byte.eqb a x23); reflexivity.
  - change (3 <? S (S (S (S (length l)))))%nat with true.
    cbn [andb gostring_eqb].
    destruct (Byte.eqb a xef && (Byte.eqb b xbb && (Byte.eqb c xbf && true)));
      cbn [skipn].
    + destruct (Byte.eqb d x23); reflexivity.
    + destruct (Byte.eqb a x23); reflexivity.
Qed.

Lemma parseHeader_stop (originalHeader line : gostring) :
  fst (parseHeader originalHeader line) = true ->
  snd (parseHeader originalHeader line) = originalHeader.
Proof.
  unfold parseHeader.
  destruct ((3 <? length line)%nat && gostring_eqb (firstn 3 line) BOM).
  - destruct (skipn 3 line) as [|c0 rest]; [reflexivity|].
    destruct (Byte.eqb c0 x23); [discriminate | reflexivity].
  - destruct line as [|c0 rest]; [reflexivity|].
    destruct (Byte.eqb c0 x23); [discriminate | reflexivity].
Qed.

(** The header loop takes the header lines and the line that ends the
    header off the scanner. *)
Lemma header_loop_consumes (hs : list gostring) :
  forall (originalHeader t : gostring) (rest : list gostring),
    Forall (fun line => ends_header line = false) hs ->
    ends_header t = true ->
    header_loop originalHeader (hs ++ t :: rest)
    = (fst (header_loop originalHeader hs), rest).
Proof.
  induction hs as [|h hs IH]; intros originalHeader t rest Hhs Ht.
  - cbn [app header_loop fst].
    pose proof (parseHeader_ends_header originalHeader t) as Hf.
    pose proof (parseHeader_stop originalHeader t) as Hs.
    destruct (parseHeader originalHeader t) as [stop hdr'].
    cbn [fst snd] in *. rewrite Hf, Ht in *. rewrite Hs; reflexivity.
  - inversion Hhs as [|? ? Hh Hhs']; subst.
    cbn [app header_loop].
    pose proof (parseHeader_ends_header originalHeader h) as Hf.
    destruct (parseHeader originalHeader h) as [stop hdr'].
    cbn [fst] in Hf. rewrite Hf, Hh. apply IH; assumption.
Qed.

(** C9: the line that ends the header, the first line that is empty or
    does not start with '#' once a leading byte order mark is set aside,
    is taken off the scanner by the header loop and never reaches
    [parseCharacter]: the entries loaded are those of the lines after it,
    whatever that line holds. *)
Theorem header_end_not_parsed (hs : list gostring) (t : gostring)
    (rest : list gostring) :
  Forall (fun line => ends_header line = false) hs ->
  ends_header t = true ->
  snd (header_loop originalHeader0 (hs ++ t :: rest)) = rest /\
  (cs <- loadUnicodeData (hs ++ t :: rest) None ;; Ok (snd cs))
  = character_loop [] rest /\
  (forall err,
      (cs <- loadUnicodeData (hs ++ t :: rest) err ;; Ok (snd cs))
      = (cs <- character_loop [] rest ;; check_scanner err cs)).
Proof.
  intros Hhs Ht. unfold loadUnicodeData.
  rewrite (header_loop_consumes hs originalHeader0 t rest Hhs Ht).
  split; [reflexivity|]. split.
  - destruct (character_loop [] rest); reflexivity.
  - intros [e|]; destruct (character_loop [] rest); reflexivity.
Qed.

(** A data line right behind the header comments is lost. *)
Lemma header_end_not_parsed_witness :
  (cs <- loadUnicodeData
           [lit "# confusables.txt"; dataline "0430" "0061" "MA";
            dataline "0440" "0070" "MA"] None ;;
   Ok (snd cs))
  = Ok [mkC 0x440%Z [0x70%Z]].
Proof.
  apply (proj1 (proj2 (header_end_not_parsed
                  [lit "# confusables.txt"] (dataline "0430" "0061" "MA")
                  [dataline "0440" "0070" "MA"]
                  ltac:(repeat constructor) eq_refl))).
Defined.

(** The accumulating loop over the target code points reads them all or
    stops at the first one [parsePoint] rejects. *)
Lemma parse_targets_parse_all (codePoints : list gostring) (line : gostring) :
  forall targetRune,
    parse_targets codePoints line targetRune
    = (ps <- parse_all codePoints line ;; Ok (targetRune ++ ps)).
Proof.
  induction codePoints as [|cp rest IH]; intros targetRune.
  - cbn. rewrite app_nil_r. reflexivity.
  - cbn [parse_targets parse_all bind].
    destruct (parsePoint cp line) as [p|f]; [|reflexivity].
    cbn [bind]. rewrite IH.
    destruct (parse_all rest line) as [ps|f]; [|reflexivity].
    cbn [bind]. rewrite <- app_assoc. reflexivity.
Qed.

(** [parseCharacter] by cases: the fields of the line, and what becomes of
    the global [confusables]. *)
Lemma parseCharacter_char (confusables : list C) (line : gostring) :
  let field := strings.Split line field_sep in
  parseCharacter confusables line =
  if blank_or_comment line then Ok confusables
  else if negb (length field =? NumField)%nat
  then Fatal (FieldCount (length field))
  else if negb (strings.HasPrefix (nth CType field []) (lit "MA"))
  then Ok confusables
  else
    sourceRune <- parsePoint (nth CSourceCodePoint field []) line ;;
    targetRune <- parse_all
                    (strings.Split (nth CTargetCodePoint field []) (lit " "))
                    line ;;
    Ok (confusables ++ [mkC sourceRune targetRune]).
Proof.
  unfold parseCharacter, blank_or_comment.
  destruct line as [|c0 rest]; [reflexivity|].
  destruct (Byte.eqb c0 x23); [reflexivity|].
  set (field := strings.Split (c0 :: rest) field_sep). cbv zeta.
  destruct (negb (length field =? NumField)%nat); [reflexivity|].
  destruct (negb (strings.HasPrefix (nth CType field []) (lit "MA")));
    [reflexivity|].
  destruct (parsePoint (nth CSourceCodePoint field []) (c0 :: rest));
    [|reflexivity].
  cbn [bind]. rewrite parse_targets_parse_all.
  destruct (parse_all _ _); reflexivity.
Qed.

Lemma parseCharacter_fatal (confusables : list C) (line : gostring) :
  is_fatal (parseCharacter confusables line) = violation line.
Proof.
  rewrite parseCharacter_char. unfold violation.
  destruct (blank_or_comment line); [reflexivity|].
  cbn [negb andb].
  set (field := strings.Split line field_sep).
  destruct (negb (length field =? NumField)%nat); [reflexivity|].
  cbn [orb].
  destruct (strings.HasPrefix (nth CType field []) (lit "MA"));
    [|reflexivity].
  cbn [negb andb].
  destruct (parsePoint (nth CSourceCodePoint field []) line);
    [|reflexivity].
  cbn [bind is_fatal orb].
  destruct (parse_all _ _); reflexivity.
Qed.

Lemma character_loop_fatal (lines : list gostring) :
  forall confusables,
    is_fatal (character_loop confusables lines) = existsb violation lines.
Proof.
  induction lines as [|line rest IH]; intros confusables; [reflexivity|].
  cbn [character_loop existsb].
  rewrite <- (parseCharacter_fatal confusables line).
  destruct (parseCharacter confusables line) as [cs|f]; [|reflexivity].
  cbn [bind is_fatal orb]. apply IH.
Qed.

(** A fatal error of the loading: raised before [makeTables] is reached,
    so before [tables.go] is created. *)
Definition before_writing (f : fatal) : Prop :=
  match f with
  | FormatFailed _ => False
  | _ => True
  end.

Lemma parsePoint_before_writing (s line : gostring) (f : fatal) :
  parsePoint s line = Fatal f -> before_writing f.
Proof.
  unfold parsePoint.
  destruct (strconv.ParseUint s 16) as [x [e|]].
  - intros H. injection H as <-. exact I.
  - destruct (rune_of_uint64 x =? 0)%Z; [intros H; injection H as <-; exact I|].
    destruct (rune_of_uint64 x >? MaxChar)%Z; [|discriminate].
    intros H. injection H as <-. exact I.
Qed.

Lemma parse_all_before_writing (codePoints : list gostring)
    (line : gostring) (f : fatal) :
  parse_all codePoints line = Fatal f -> before_writing f.
Proof.
  induction codePoints as [|cp rest IH]; cbn [parse_all]; [discriminate|].
  destruct (parsePoint cp line) as [p|f'] eqn:Ep; cbn [bind].
  - destruct (parse_all rest line) as [ps|f'']; cbn [bind]; [discriminate|].
    intros H. injection H as <-. apply IH. reflexivity.
  - intros H. injection H as <-. exact (parsePoint_before_writing _ _ _ Ep).
Qed.

Lemma parseCharacter_before_writing (confusables : list C)
    (line : gostring) (f : fatal) :
  parseCharacter confusables line = Fatal f -> before_writing f.
Proof.
  rewrite parseCharacter_char. cbv zeta.
  destruct (blank_or_comment line); [discriminate|].
  destruct (negb (length _ =? NumField)%nat);
    [intros H; injection H as <-; exact I|].
  destruct (negb (strings.HasPrefix _ _)); [discriminate|].
  destruct (parsePoint _ line) as [p|f'] eqn:Ep; cbn [bind].
  - destruct (parse_all _ line) as [ps|f''] eqn:Eps; cbn [bind];
      [discriminate|].
    intros H. injection H as <-. exact (parse_all_before_writing _ _ _ Eps).
  - intros H. injection H as <-. exact (parsePoint_before_writing _ _ _ Ep).
Qed.

Lemma character_loop_violation (lines : list gostring) :
  forall confusables,
    existsb violation lines = true ->
    exists f, character_loop confusables lines = Fatal f /\ before_writing f.
Proof.
  induction lines as [|line rest IH]; intros confusables Hv; [discriminate|].
  cbn [character_loop existsb] in *.
  rewrite <- (parseCharacter_fatal confusables line) in Hv.
  destruct (parseCharacter confusables line) as [cs|f] eqn:Ep.
  - cbn [bind is_fatal orb] in *. apply IH. exact Hv.
  - exists f. split; [reflexivity|].
    exact (parseCharacter_before_writing _ _ _ Ep).
Qed.

Section Build.

Variable Source : gostring -> option gostring.
Variable Sprintf_entry : rune -> gostring -> gostring.

(** C5, as amended: when some line that the scanner yields behind the line
    that ends the header is neither blank nor a comment and has a wrong
    number of fields, or is tagged MA and holds a code point that
    [parsePoint] rejects, the build ends fatally in the loading, before
    [makeTables] is reached and [tables.go] is created: nothing is
    written.  The code points of a three-field line with any other tag
    are not parsed: such a line is passed over whatever they hold. *)
Theorem violation_is_fatal (lines : list gostring)
    (err : option scan_error) :
  (existsb violation (snd (header_loop originalHeader0 lines)) = true ->
   exists f,
     loadUnicodeData lines err = Fatal f /\
     main Source Sprintf_entry lines err = Fatal f /\
     before_writing f) /\
  (forall confusables line,
      blank_or_comment line = false ->
      length (strings.Split line field_sep) = NumField ->
      strings.HasPrefix (nth CType (strings.Split line field_sep) [])
        (lit "MA") = false ->
      parseCharacter confusables line = Ok confusables).
Proof.
  split.
  - intros Hv. unfold main, loadUnicodeData.
    destruct (header_loop originalHeader0 lines) as [hdr rest].
    cbn [snd] in Hv.
    destruct (character_loop_violation rest [] Hv) as (f & Hf & Hb).
    exists f. rewrite Hf. repeat split; [exact Hb].
  - intros confusables line Hb Hn HMA. rewrite parseCharacter_char.
    cbv zeta. apply Nat.eqb_eq in Hn. rewrite Hb, Hn, HMA. reflexivity.
Qed.

End Build.

(** C5 fails: a line tagged SL with a source that is no number at all is
    passed over; the loading ends in order, with the entry of the line
    behind it, and the table with that entry is put into text and handed
    to [WriteGoFile], which creates [tables.go] with it. *)
Lemma bad_codepoint_outside_MA_not_fatal :
  let line := dataline "ZZZZ" "0061" "SL" in
  let lines :=
    [lit "# confusables.txt"; []; line; dataline "0430" "0061" "MA"] in
  let table :=
    mkTable (originalHeader0 ++ lit "// confusables.txt" ++ [x0a])
            ((0x430%Z, lit "a") :: additions) in
  blank_or_comment line = false /\
  parsePoint (lit "ZZZZ") line = Fatal (BadNumber strconv.ErrSyntax) /\
  loadUnicodeData lines None
  = Ok (originalHeader0 ++ lit "// confusables.txt" ++ [x0a],
        [mkC 0x430%Z [0x61%Z]]) /\
  makeTables (originalHeader0 ++ lit "// confusables.txt" ++ [x0a])
    [mkC 0x430%Z [0x61%Z]]
  = table /\
  (forall Source Sprintf_entry,
      main Source Sprintf_entry lines None
      = write_tables Source Sprintf_entry table).
Proof.
  repeat split; vm_compute; reflexivity.
Qed.

(** A violation on the line [ZZZZ ; 0061 ; MA] ends the build before
    anything is written, whatever the formatter and the scanner do. *)
Lemma violation_is_fatal_witness :
  exists f,
    loadUnicodeData
      [lit "# confusables.txt"; []; dataline "ZZZZ" "0061" "MA"] None
    = Fatal f /\
    main (fun b => Some b) (fun _ s => s)
      [lit "# confusables.txt"; []; dataline "ZZZZ" "0061" "MA"] None
    = Fatal f /\
    before_writing f.
Proof.
  apply (proj1 (violation_is_fatal (fun b => Some b) (fun _ s => s)
                  [lit "# confusables.txt"; []; dataline "ZZZZ" "0061" "MA"]
                  None)).
  reflexivity.
Defined.

(** C6, as amended: [parseCharacter] adds no entry for a blank line and for
    a line that starts with '#'; it ends the build when any other line does
    not split into exactly three fields; it adds no entry, and does not
    fail, when the tag does not start with MA; for a remaining line it adds
    exactly one entry, the source code point and the target code points in
    their order, when [parsePoint] accepts every one of them, and ends the
    build when it rejects one. *)
Theorem parseCharacter_cases (confusables : list C) (line : gostring) :
  let field := strings.Split line field_sep in
  let source := nth CSourceCodePoint field [] in
  let targets := strings.Split (nth CTargetCodePoint field []) (lit " ") in
  (blank_or_comment line = true ->
   parseCharacter confusables line = Ok confusables) /\
  (blank_or_comment line = false -> length field <> NumField ->
   parseCharacter confusables line = Fatal (FieldCount (length field))) /\
  (blank_or_comment line = false -> length field = NumField ->
   strings.HasPrefix (nth CType field []) (lit "MA") = false ->
   parseCharacter confusables line = Ok confusables) /\
  (blank_or_comment line = false -> length field = NumField ->
   strings.HasPrefix (nth CType field []) (lit "MA") = true ->
   (forall sourceRune targetRune,
       parsePoint source line = Ok sourceRune ->
       parse_all targets line = Ok targetRune ->
       parseCharacter confusables line
       = Ok (confusables ++ [mkC sourceRune targetRune])) /\
   (is_fatal (parsePoint source line) || is_fatal (parse_all targets line)
    = true ->
    is_fatal (parseCharacter confusables line) = true)).
Proof.
  cbv zeta. rewrite parseCharacter_char.
  split; [|split; [|split]].
  - intros ->. reflexivity.
  - intros -> Hn. apply Nat.eqb_neq in Hn. rewrite Hn. reflexivity.
  - intros -> Hn HMA. apply Nat.eqb_eq in Hn. rewrite Hn, HMA. reflexivity.
  - intros -> Hn HMA. apply Nat.eqb_eq in Hn. rewrite Hn, HMA.
    cbn [negb]. split.
    + intros sourceRune targetRune Hs Ht. rewrite Hs, Ht. reflexivity.
    + intros Hf. destruct (parsePoint _ line); [|reflexivity].
      cbn [bind is_fatal orb] in *.
      destruct (parse_all _ line); [discriminate | reflexivity].
Qed.

(** C6 fails: a line of three fields tagged MA whose source is no number
    gives no entry; it ends the build. *)
Lemma MA_line_without_entry :
  let line := dataline "ZZZZ" "0061" "MA" in
  blank_or_comment line = false /\
  length (strings.Split line field_sep) = NumField /\
  strings.HasPrefix (nth CType (strings.Split line field_sep) []) (lit "MA")
  = true /\
  parseCharacter [] line = Fatal (BadNumber strconv.ErrSyntax).
Proof. repeat split; vm_compute; reflexivity. Qed.

Lemma parseCharacter_cases_witness :
  parseCharacter [] (dataline "217F" "0072 006E" "MA")
  = Ok ([] ++ [mkC 0x217F%Z [0x72; 0x6E]%Z]).
Proof.
  apply (proj1 (proj2 (proj2 (proj2
           (parseCharacter_cases [] (dataline "217F" "0072 006E" "MA"))))
           eq_refl eq_refl eq_refl));
    reflexivity.
Defined.

(** C7: behind the lines for the parsed entries [makeTables] always writes
    its fixed list of additions, the 31 lines of the source, among them
    fullwidth D for "D", runic ᚱ for "R" and π for "n". *)
Theorem makeTables_additions (originalHeader : gostring)
    (confusables : list C) :
  let t := makeTables originalHeader confusables in
  entries t = flat_map emit confusables ++ additions /\
  skipn (length (flat_map emit confusables)) (entries t) = additions /\
  length additions = 31%nat /\
  In (rune_lit "Ｄ", lit "D") (entries t) /\
  In (rune_lit "ᚱ", lit "R") (entries t) /\
  In (rune_lit "π", lit "n") (entries t) /\
  lookup additions 0xFF24%Z = Some (lit "D") /\
  lookup additions 0x16B1%Z = Some (lit "R") /\
  lookup additions 0x03C0%Z = Some (lit "n").
Proof.
  cbv zeta. unfold makeTables. cbn [entries].
  assert (Hin : forall e, In e additions ->
                          In e (flat_map emit confusables ++ additions)).
  { intros e He. apply in_or_app. right. exact He. }
  repeat split.
  - rewrite skipn_app, skipn_all, Nat.sub_diag. reflexivity.
  - apply Hin. vm_compute. tauto.
  - apply Hin. vm_compute. tauto.
  - apply Hin. vm_compute. tauto.
Qed.

(** * Further properties of the code *)

(** ** The engine on text without keys, and on ASCII text *)

Section EngineMore.

Variable NFKD : gostring -> gostring.
Variable confusablesMap : rune -> option gostring.

(** Text in which no rune is a key is only normalised, twice. *)
Theorem Skeleton_key_free (s : gostring) :
  key_free confusablesMap (NFKD s) = true ->
  Skeleton NFKD confusablesMap s = Some (NFKD (NFKD s)).
Proof.
  intros Hfree. rewrite Skeleton_eq_spec. unfold skeleton_spec.
  rewrite (substitute_key_free confusablesMap (length (NFKD s)) (NFKD s)
             (le_n _) Hfree).
  reflexivity.
Qed.

(** The loop entered at position [i] returns the text before [i] as it
    found it: what has been scanned, replacements included, is never read
    or written again, and the rest is substituted as if it stood alone. *)
Theorem scan_keeps_prefix (s r : gostring) (i : nat) :
  (i <= length s)%nat ->
  scan confusablesMap s i = Some r ->
  firstn i r = firstn i s /\
  skipn i r = substitute_spec confusablesMap (skipn i s).
Proof.
  intros Hi Hr.
  destruct (scan_runs confusablesMap (length s) s i Hi) as (n & _ & _ & Hscan);
    [unfold unscanned; lia|].
  rewrite Hscan in Hr. injection Hr as <-.
  assert (Hl : length (firstn i s) = i) by (rewrite length_firstn; lia).
  split.
  - rewrite <- Hl at 1. rewrite firstn_app, firstn_all, Nat.sub_diag.
    rewrite firstn_O, app_nil_r. reflexivity.
  - rewrite <- Hl at 1. rewrite skipn_app, skipn_all, Nat.sub_diag.
    reflexivity.
Qed.

(** A byte below 0x80 is a rune of its own. *)
Lemma DecodeRuneInString_ascii (b : byte) (t : gostring) :
  (byteZ b < 0x80)%Z ->
  utf8.DecodeRuneInString (b :: t) = (byteZ b, 1%nat).
Proof.
  intros Hb. unfold utf8.DecodeRuneInString, utf8.first.
  destruct (byteZ b <? 0xC2)%Z eqn:E; [|apply Z.ltb_ge in E; lia].
  destruct (byteZ b <? 0x80)%Z eqn:E'; [reflexivity|].
  apply Z.ltb_ge in E'. lia.
Qed.

(** What the scan writes for an ASCII byte. *)
Definition ascii_subst (b : byte) : gostring :=
  match confusablesMap (byteZ b) with
  | Some replacement => replacement
  | None => [b]
  end.

Lemma substitute_ascii (s : gostring) :
  Forall (fun b => (byteZ b < 0x80)%Z) s ->
  substitute_spec confusablesMap s = flat_map ascii_subst s.
Proof.
  induction 1 as [|b t Hb Ht IH]; simp substitute_spec; [reflexivity|].
  unfold emitted. rewrite (DecodeRuneInString_ascii b t Hb).
  cbn [snd skipn flat_map firstn]. rewrite IH. reflexivity.
Qed.

(** On text that is ASCII once normalised the loop works byte by byte:
    each byte that is a key gives its replacement, every other byte stays,
    and the result is normalised. *)
Theorem Skeleton_ascii (s : gostring) :
  Forall (fun b => (byteZ b < 0x80)%Z) (NFKD s) ->
  Skeleton NFKD confusablesMap s
  = Some (NFKD (flat_map ascii_subst (NFKD s))).
Proof.
  intros Hs. rewrite Skeleton_eq_spec. unfold skeleton_spec.
  rewrite (substitute_ascii (NFKD s) Hs). reflexivity.
Qed.

End EngineMore.

Lemma Skeleton_key_free_witness :
  Skeleton NFKD_plain (table_of cyrillic_lines) (lit "scope")
  = Some (lit "scope").
Proof.
  apply (Skeleton_key_free NFKD_plain (table_of cyrillic_lines) (lit "scope")).
  vm_compute. reflexivity.
Defined.

Lemma scan_keeps_prefix_witness :
  firstn 2 (lit "рapy") = firstn 2 (lit "рaрy") /\
  skipn 2 (lit "рapy")
  = substitute_spec (table_of cyrillic_lines) (skipn 2 (lit "рaрy")).
Proof.
  apply (scan_keeps_prefix (table_of cyrillic_lines) (lit "рaрy")
           (lit "рapy") 2).
  - vm_compute. lia.
  - vm_compute. reflexivity.
Defined.

Lemma Skeleton_ascii_witness :
  Skeleton NFKD_plain (table_of chain_lines) (lit "ABC")
  = Some (NFKD_plain
            (flat_map (ascii_subst (table_of chain_lines))
               (NFKD_plain (lit "ABC")))).
Proof.
  apply (Skeleton_ascii NFKD_plain (table_of chain_lines) (lit "ABC")).
  repeat constructor.
Defined.

(** ** Encoding and decoding runes *)

(** A Unicode scalar value: a code point that is no surrogate. *)
Definition ValidRune (r : rune) : bool :=
  ((0 <=? r) && (r <? 0xD800) || (0xDFFF <? r) && (r <=? utf8.MaxRune))%Z.

(** The rune [string(r)] holds: [r], or U+FFFD when [r] is no scalar value. *)
Definition encoded_rune (r : rune) : rune :=
  if ValidRune r then r else utf8.RuneError.

(** [f] holds on the [p] numbers from [lo] on. *)
Fixpoint all_from (p : positive) (lo : Z) (f : Z -> bool) : bool :=
  match p with
  | xH => f lo
  | xO q => all_from q lo f && all_from q (lo + Zpos q)%Z f
  | xI q =>
    all_from q lo f && all_from q (lo + Zpos q)%Z f
    && f (lo + Zpos q + Zpos q)%Z
  end.

Lemma all_from_spec (f : Z -> bool) (p : positive) :
  forall lo, all_from p lo f = true ->
    forall r, (lo <= r < lo + Zpos p)%Z -> f r = true.
Proof.
  induction p as [q IH|q IH|]; intros lo H r Hr; cbn [all_from] in H.
  - apply andb_true_iff in H as [H H3]. apply andb_true_iff in H as [H1 H2].
    destruct (Z_lt_ge_dec r (lo + Zpos q)) as [Hlt|Hge].
    + apply (IH lo H1). lia.
    + destruct (Z_lt_ge_dec r (lo + Zpos q + Zpos q)) as [Hlt'|Hge'].
      * apply (IH _ H2). lia.
      * replace r with (lo + Zpos q + Zpos q)%Z by lia. exact H3.
  - apply andb_true_iff in H as [H1 H2].
    destruct (Z_lt_ge_dec r (lo + Zpos q)) as [Hlt|Hge].
    + apply (IH lo H1). lia.
    + apply (IH _ H2). lia.
  - replace r with lo by lia. exact H.
Qed.

(** The encoding of [r], standing alone, decodes to [encoded_rune r] over
    its whole length, and a one-byte encoding is an ASCII byte. *)
Definition round_trip (r : rune) : bool :=
  let e := utf8.EncodeRune r in
  let '(r', w) := utf8.DecodeRuneInString e in
  (r' =? encoded_rune r)%Z && (w =? length e)%nat &&
  match e with
  | [] => false
  | [b] => (byteZ b <? 0x80)%Z
  | _ => (length e <=? 4)%nat
  end.

(** The code points below 0x10000, one by one. *)
Lemma round_trip_plane0 : all_from (Z.to_pos 0x10000) 0%Z round_trip = true.
Proof. vm_compute. reflexivity. Qed.

(** Bit fields that do not overlap add up. *)
Lemma lor_add (x k y n : Z) :
  (x = k * 2 ^ n -> 0 <= n -> 0 <= y < 2 ^ n -> Z.lor x y = x + y)%Z.
Proof.
  intros -> Hn Hy.
  assert (Hland : Z.land (k * 2 ^ n) y = 0%Z).
  { apply Z.bits_inj'. intros m Hm. rewrite Z.land_spec, Z.bits_0.
    destruct (Z.lt_ge_cases m n) as [Hlt|Hge].
    - rewrite Z.mul_pow2_bits_low by exact Hlt. reflexivity.
    - destruct (Z.eq_dec y 0) as [->|Hy0].
      + rewrite Z.bits_0. apply andb_false_r.
      + rewrite (Z.bits_above_log2 y m); [apply andb_false_r | lia |].
        assert (Z.log2 y < n)%Z by (apply Z.log2_lt_pow2; lia). lia. }
  rewrite Z.add_nocarry_lxor by exact Hland.
  symmetry. apply Z.lxor_lor. exact Hland.
Qed.

(** A continuation byte made of six bits gives the six bits back. *)
Lemma cont_byte (x : Z) :
  (0 <= x < 64)%Z ->
  byteZ (byte_of_Z (Z.lor 0x80 x)) = (0x80 + x)%Z /\
  utf8.cont (byte_of_Z (Z.lor 0x80 x)) = x.
Proof.
  intros Hx.
  assert (E : Z.lor 0x80 x = (0x80 + x)%Z)
    by (apply (lor_add 0x80 2 x 6); [reflexivity | lia | lia]).
  unfold utf8.cont. rewrite E, byteZ_byte_of_Z by lia. split; [reflexivity|].
  change 0x3F%Z with (Z.ones 6). rewrite Z.land_ones by lia.
  change (2 ^ 6)%Z with 64%Z.
  replace (0x80 + x)%Z with (x + 2 * 64)%Z by lia.
  rewrite Z.mod_add by lia. apply Z.mod_small. lia.
Qed.

(** The decoder on a sequence of four bytes it accepts. *)
Lemma DecodeRuneInString_four (b0 b1 b2 b3 : byte) (rest : gostring)
    (lo hi : Z) :
  utf8.first (byteZ b0) = Some (4%nat, (lo, hi)) ->
  utf8.in_range lo hi b1 = true ->
  utf8.in_range 0x80 0xBF b2 = true ->
  utf8.in_range 0x80 0xBF b3 = true ->
  utf8.DecodeRuneInString (b0 :: b1 :: b2 :: b3 :: rest)
  = (Z.lor (Z.lor (Z.lor (Z.shiftl (Z.land (byteZ b0) 0x07) 18)
                         (Z.shiftl (utf8.cont b1) 12))
                  (Z.shiftl (utf8.cont b2) 6)) (utf8.cont b3), 4%nat).
Proof.
  intros H0 H1 H2 H3. unfold utf8.DecodeRuneInString.
  rewrite H0, H1, H2, H3. reflexivity.
Qed.

(** The four-byte encodings, by their bit fields. *)
Lemma round_trip_four (r : rune) (rest : gostring) :
  (0x10000 <= r <= 0x10FFFF)%Z ->
  utf8.DecodeRuneInString (utf8.EncodeRune r ++ rest) = (r, 4%nat).
Proof.
  intros Hr. unfold utf8.EncodeRune, utf8.MaxRune.
  assert (E1 : (r <=? 0x7F)%Z = false) by (apply Z.leb_gt; lia).
  assert (E2 : (r <=? 0x7FF)%Z = false) by (apply Z.leb_gt; lia).
  assert (E3 : (r <? 0)%Z = false) by (apply Z.ltb_ge; lia).
  assert (E4 : (0x10FFFF <? r)%Z = false) by (apply Z.ltb_ge; lia).
  assert (E5 : (r <=? 0xDFFF)%Z = false) by (apply Z.leb_gt; lia).
  assert (E6 : (r <=? 0xFFFF)%Z = false) by (apply Z.leb_gt; lia).
  rewrite E1, E2, E3, E4, E5, E6, !andb_false_r. cbn [orb app].
  change 0x3F%Z with (Z.ones 6).
  rewrite !Z.land_ones, !Z.shiftr_div_pow2 by lia.
  change (2 ^ 6)%Z with 64%Z. change (2 ^ 12)%Z with 4096%Z.
  change (2 ^ 18)%Z with 262144%Z.
  set (a := (r / 262144)%Z). set (b := ((r / 4096) mod 64)%Z).
  set (c := ((r / 64) mod 64)%Z). set (d := (r mod 64)%Z).
  assert (Hfields : (0 <= a <= 4 /\ 0 <= b < 64 /\ 0 <= c < 64 /\ 0 <= d < 64
                     /\ r = ((a * 64 + b) * 64 + c) * 64 + d
                     /\ (a = 0 -> 16 <= b) /\ (a = 4 -> b < 16))%Z).
  { subst a b c d. Z.div_mod_to_equations. lia. }
  destruct Hfields as (Ha & Hb & Hc & Hd & Hsum & Hlow & Hhigh).
  destruct (cont_byte b Hb) as [Bb Cb].
  destruct (cont_byte c Hc) as [Bc Cc].
  destruct (cont_byte d Hd) as [Bd Cd].
  assert (R2 : utf8.in_range 0x80 0xBF (byte_of_Z (Z.lor 0x80 c)) = true).
  { unfold utf8.in_range. rewrite Bc. apply andb_true_iff.
    split; apply Z.leb_le; lia. }
  assert (R3 : utf8.in_range 0x80 0xBF (byte_of_Z (Z.lor 0x80 d)) = true).
  { unfold utf8.in_range. rewrite Bd. apply andb_true_iff.
    split; apply Z.leb_le; lia. }
  assert (Hlead : exists lo hi,
             utf8.first (byteZ (byte_of_Z (Z.lor 0xF0 a))) = Some (4%nat, (lo, hi))
             /\ (lo <= 0x80 + b <= hi)%Z
             /\ Z.land (byteZ (byte_of_Z (Z.lor 0xF0 a))) 0x07 = a).
  { assert (Hcases : (a = 0 \/ a = 1 \/ a = 2 \/ a = 3 \/ a = 4)%Z) by lia.
    destruct Hcases as [E|[E|[E|[E|E]]]]; rewrite E;
      eexists _, _; (split; [reflexivity|]); (split; [|reflexivity]); lia. }
  destruct Hlead as (lo & hi & Hfirst & Hrange & Hmask).
  rewrite (DecodeRuneInString_four _ _ _ _ rest lo hi Hfirst); [| |exact R2|exact R3].
  2:{ unfold utf8.in_range. rewrite Bb. apply andb_true_iff.
      split; apply Z.leb_le; lia. }
  rewrite Hmask, Cb, Cc, Cd, !Z.shiftl_mul_pow2 by lia. f_equal.
  rewrite (lor_add (a * 2 ^ 18) a (b * 2 ^ 12) 18) by lia.
  rewrite (lor_add (a * 2 ^ 18 + b * 2 ^ 12) (a * 64 + b) (c * 2 ^ 6) 12)
    by lia.
  rewrite (lor_add (a * 2 ^ 18 + b * 2 ^ 12 + c * 2 ^ 6)
             ((a * 64 + b) * 64 + c) d 6) by lia.
  lia.
Qed.

(** A rune read over the whole of a string is read the same way with more
    text behind it, a lone non-ASCII byte apart. *)
Lemma DecodeRuneInString_app (x rest : gostring) (r : rune) :
  utf8.DecodeRuneInString x = (r, length x) ->
  match x with
  | [] => False
  | [b] => (byteZ b < 0x80)%Z
  | _ => True
  end ->
  utf8.DecodeRuneInString (x ++ rest) = (r, length x).
Proof.
  intros Hd Hx.
  destruct x as [|b0 [|b1 [|b2 [|b3 [|b4 x]]]]]; [contradiction| | | | |].
  - rewrite (DecodeRuneInString_ascii b0 [] Hx) in Hd.
    cbn [app]. rewrite (DecodeRuneInString_ascii b0 rest Hx). exact Hd.
  - unfold utf8.DecodeRuneInString in *. cbn [app length] in *.
    destruct (utf8.first (byteZ b0)) as [[sz [lo hi]]|].
    2:{ destruct (byteZ b0 <? 128)%Z; discriminate. }
    destruct (2 <? sz)%nat eqn:E; [discriminate|].
    apply Nat.ltb_ge in E.
    assert (E' : (S (S (length rest)) <? sz)%nat = false)
      by (apply Nat.ltb_ge; lia).
    rewrite E'. destruct (negb (utf8.in_range lo hi b1)); [discriminate|].
    destruct (sz <=? 2)%nat; [exact Hd | discriminate].
  - unfold utf8.DecodeRuneInString in *. cbn [app length] in *.
    destruct (utf8.first (byteZ b0)) as [[sz [lo hi]]|].
    2:{ destruct (byteZ b0 <? 128)%Z; discriminate. }
    destruct (3 <? sz)%nat eqn:E; [discriminate|].
    apply Nat.ltb_ge in E.
    assert (E' : (S (S (S (length rest))) <? sz)%nat = false)
      by (apply Nat.ltb_ge; lia).
    rewrite E'. destruct (negb (utf8.in_range lo hi b1)); [discriminate|].
    destruct (sz <=? 2)%nat; [discriminate|].
    destruct (negb (utf8.in_range 128 191 b2)); [discriminate|].
    destruct (sz <=? 3)%nat; [exact Hd | discriminate].
  - unfold utf8.DecodeRuneInString in *. cbn [app length] in *.
    destruct (utf8.first (byteZ b0)) as [[sz [lo hi]]|].
    2:{ destruct (byteZ b0 <? 128)%Z; discriminate. }
    destruct (4 <? sz)%nat eqn:E; [discriminate|].
    apply Nat.ltb_ge in E.
    assert (E' : (S (S (S (S (length rest)))) <? sz)%nat = false)
      by (apply Nat.ltb_ge; lia).
    rewrite E'. destruct (negb (utf8.in_range lo hi b1)); [discriminate|].
    destruct (sz <=? 2)%nat; [discriminate|].
    destruct (negb (utf8.in_range 128 191 b2)); [discriminate|].
    destruct (sz <=? 3)%nat; [discriminate|].
    destruct (negb (utf8.in_range 128 191 b3)); [discriminate | exact Hd].
  - exfalso.
    assert (Hne : b0 :: b1 :: b2 :: b3 :: b4 :: x <> []) by discriminate.
    pose proof (DecodeRuneInString_width _ Hne) as Hw. rewrite Hd in Hw.
    unfold utf8.DecodeRuneInString in Hd. cbn [length] in *.
    destruct (utf8.first (byteZ b0)) as [[sz [lo hi]]|].
    2:{ destruct (byteZ b0 <? 128)%Z; discriminate. }
    destruct (_ <? sz)%nat; [discriminate|].
    destruct (negb (utf8.in_range lo hi b1)); [discriminate|].
    destruct (sz <=? 2)%nat; [discriminate|].
    destruct (negb (utf8.in_range 128 191 b2)); [discriminate|].
    destruct (sz <=? 3)%nat; [discriminate|].
    destruct (negb (utf8.in_range 128 191 b3)); discriminate.
Qed.

Lemma EncodeRune_round_trip (r : rune) (rest : gostring) :
  utf8.EncodeRune r <> [] /\
  utf8.DecodeRuneInString (utf8.EncodeRune r ++ rest)
  = (encoded_rune r, length (utf8.EncodeRune r)).
Proof.
  destruct (Z_lt_ge_dec r 0x10000%Z) as [Hlow|Hhigh];
    [|destruct (Z_le_gt_dec r 0x10FFFF%Z) as [Hin|Hout]].
  - assert (Hrt : round_trip r = true).
    { destruct (Z_lt_ge_dec r 0%Z) as [Hneg|Hpos].
      - unfold round_trip, encoded_rune, ValidRune, utf8.EncodeRune,
          utf8.MaxRune.
        assert (E0 : (0 <=? r)%Z = false) by (apply Z.leb_gt; lia).
        assert (E1 : (r <? 0)%Z = true) by (apply Z.ltb_lt; lia).
        assert (E2 : (0xDFFF <? r)%Z = false) by (apply Z.ltb_ge; lia).
        rewrite E0, E1, E2. reflexivity.
      - apply (all_from_spec round_trip _ 0%Z round_trip_plane0). cbn. lia. }
    unfold round_trip in Hrt.
    destruct (utf8.DecodeRuneInString (utf8.EncodeRune r)) as [r' w] eqn:Ed.
    apply andb_true_iff in Hrt as [Hrt Hshape].
    apply andb_true_iff in Hrt as [Hr' Hw].
    apply Z.eqb_eq in Hr'. apply Nat.eqb_eq in Hw. subst r' w.
    split.
    + destruct (utf8.EncodeRune r); [discriminate | discriminate].
    + apply DecodeRuneInString_app; [exact Ed|].
      destruct (utf8.EncodeRune r) as [|b [|b' e]];
        [discriminate | apply Z.ltb_lt; exact Hshape | exact I].
  - assert (Hv : encoded_rune r = r).
    { unfold encoded_rune, ValidRune, utf8.MaxRune.
      assert (E0 : (0xDFFF <? r)%Z = true) by (apply Z.ltb_lt; lia).
      assert (E1 : (r <=? 0x10FFFF)%Z = true) by (apply Z.leb_le; lia).
      rewrite E0, E1, orb_true_r. reflexivity. }
    rewrite Hv.
    pose proof (round_trip_four r rest (conj (Z.ge_le _ _ Hhigh) Hin)) as H4.
    assert (Hlen : length (utf8.EncodeRune r) = 4%nat).
    { unfold utf8.EncodeRune, utf8.MaxRune.
      repeat match goal with
             | |- context [if ?b then _ else _] => destruct b eqn:?
             end; try reflexivity; exfalso;
        repeat match goal with
               | H : (_ && _)%bool = true |- _ =>
                 apply andb_true_iff in H; destruct H
               | H : (_ || _)%bool = true |- _ =>
                 apply orb_true_iff in H; destruct H
               | H : (_ <=? _)%Z = true |- _ => apply Z.leb_le in H
               | H : (_ <? _)%Z = true |- _ => apply Z.ltb_lt in H
               end; lia. }
    rewrite Hlen. split; [|exact H4].
    intros E. rewrite E in Hlen. discriminate.
  - unfold encoded_rune, ValidRune, utf8.EncodeRune, utf8.MaxRune.
    assert (E0 : (r <=? 0x7F)%Z = false) by (apply Z.leb_gt; lia).
    assert (E1 : (r <=? 0x7FF)%Z = false) by (apply Z.leb_gt; lia).
    assert (E2 : (0x10FFFF <? r)%Z = true) by (apply Z.ltb_lt; lia).
    assert (E3 : (r <=? 0x10FFFF)%Z = false) by (apply Z.leb_gt; lia).
    assert (E4 : (r <? 0xD800)%Z = false) by (apply Z.ltb_ge; lia).
    rewrite E0, E1, E2, E3, E4, !andb_false_r, orb_true_r.
    cbn [orb]. split; [discriminate | reflexivity].
Qed.

(** Decoding reads back what encoding wrote, whatever follows: the rune
    itself when it is a scalar value, U+FFFD otherwise, over exactly the
    bytes of the encoding. *)
Theorem DecodeRuneInString_EncodeRune (r : rune) (rest : gostring) :
  utf8.DecodeRuneInString (utf8.EncodeRune r ++ rest)
  = (if ValidRune r then r else utf8.RuneError, length (utf8.EncodeRune r))
  /\ (1 <= length (utf8.EncodeRune r) <= 4)%nat.
Proof.
  destruct (EncodeRune_round_trip r rest) as [Hne Hd]. split; [exact Hd|].
  assert (Hne' : utf8.EncodeRune r ++ rest <> []).
  { destruct (utf8.EncodeRune r); [congruence | discriminate]. }
  pose proof (DecodeRuneInString_width _ Hne') as Hw. rewrite Hd in Hw.
  cbn [snd] in Hw. split; [lia|].
  unfold utf8.EncodeRune.
  repeat match goal with
         | |- context [if ?b then _ else _] => destruct b
         end; cbn [length]; lia.
Qed.

Section EngineOnRunes.

Variable NFKD : gostring -> gostring.
Variable confusablesMap : rune -> option gostring.

(** What the scan writes for a rune of well-formed text. *)
Definition rune_subst (r : rune) : gostring :=
  match confusablesMap (encoded_rune r) with
  | Some replacement => replacement
  | None => utf8.EncodeRune r
  end.

Lemma substitute_runes (rs : list rune) :
  substitute_spec confusablesMap (string_of_runes rs)
  = flat_map rune_subst rs.
Proof.
  induction rs as [|r rs IH]; [reflexivity|].
  unfold string_of_runes in *. cbn [flat_map].
  destruct (EncodeRune_round_trip r (flat_map utf8.EncodeRune rs))
    as [Hne Hd].
  unfold rune_subst.
  destruct (utf8.EncodeRune r) as [|b e] eqn:Ee; [congruence|].
  cbn [app] in *. simp substitute_spec. unfold emitted. rewrite Hd.
  cbn [snd].
  change (b :: e ++ flat_map utf8.EncodeRune rs)
    with ((b :: e) ++ flat_map utf8.EncodeRune rs).
  rewrite skipn_app, skipn_all, Nat.sub_diag.
  rewrite firstn_app, firstn_all, Nat.sub_diag.
  cbn [skipn firstn app]. rewrite app_nil_r, IH.
  destruct (confusablesMap (encoded_rune r)); reflexivity.
Qed.

(** On text that, normalised, is the encoding of a sequence of runes, the
    skeleton is made rune by rune: the replacement of each key, the
    encoding of every other rune, in order, and normalised. *)
Theorem Skeleton_on_runes (s : gostring) (rs : list rune) :
  NFKD s = string_of_runes rs ->
  Skeleton NFKD confusablesMap s = Some (NFKD (flat_map rune_subst rs)).
Proof.
  intros Hs. rewrite Skeleton_eq_spec. unfold skeleton_spec.
  rewrite Hs, substitute_runes. reflexivity.
Qed.

End EngineOnRunes.

Lemma Skeleton_on_runes_witness :
  Skeleton NFKD_plain (table_of cyrillic_lines) (lit "раура1")
  = Some (NFKD_plain
            (flat_map (rune_subst (table_of cyrillic_lines))
               [0x440; 0x430; 0x443; 0x440; 0x430; 0x31]%Z)).
Proof.
  apply (Skeleton_on_runes NFKD_plain (table_of cyrillic_lines)
           (lit "раура1") [0x440; 0x430; 0x443; 0x440; 0x430; 0x31]%Z).
  vm_compute. reflexivity.
Defined.

(** ** [parsePoint] on hexadecimal numerals *)

(** [strconv] reads the digits of a hexadecimal numeral as [hex_digit]
    does, and takes any other letter for a digit of 16 or more. *)
Definition digit_agree (c : byte) : bool :=
  match hex_digit c, strconv.digit c with
  | Some d, Some d' => ((d =? d') && (0 <=? d) && (d <? 16))%Z
  | None, Some d' => (16 <=? d')%Z
  | None, None => true
  | Some _, None => false
  end.

Lemma digit_agree_all (c : byte) : digit_agree c = true.
Proof. destruct c; reflexivity. Qed.

Lemma digit_of_hex_digit (c : byte) (d : Z) :
  hex_digit c = Some d -> strconv.digit c = Some d /\ (0 <= d < 16)%Z.
Proof.
  intros H. pose proof (digit_agree_all c) as Ha. unfold digit_agree in Ha.
  rewrite H in Ha. destruct (strconv.digit c) as [d'|]; [|discriminate].
  apply andb_true_iff in Ha as [Ha H16]. apply andb_true_iff in Ha as [He H0].
  apply Z.eqb_eq in He. apply Z.leb_le in H0. apply Z.ltb_lt in H16.
  subst d'. split; [reflexivity | lia].
Qed.

Lemma hex_value_from_ge (s : gostring) :
  forall n v, (0 <= n)%Z -> hex_value_from n s = Some v -> (n <= v)%Z.
Proof.
  induction s as [|c t IH]; intros n v Hn H; cbn [hex_value_from] in H.
  - injection H as <-. lia.
  - destruct (hex_digit c) as [d|] eqn:Ed; [|discriminate].
    destruct (digit_of_hex_digit c d Ed) as [_ Hd].
    apply IH in H; lia.
Qed.

(** A numeral below 2^64 is read as its value. *)
Lemma ParseUint_loop_value (s : gostring) :
  forall n v, (0 <= n)%Z -> hex_value_from n s = Some v -> (v < 2 ^ 64)%Z ->
    strconv.ParseUint_loop 16 s n = (v, None).
Proof.
  induction s as [|c t IH]; intros n v Hn H Hv;
    cbn [hex_value_from strconv.ParseUint_loop] in *.
  - injection H as <-. reflexivity.
  - destruct (hex_digit c) as [d|] eqn:Ed; [|discriminate].
    destruct (digit_of_hex_digit c d Ed) as [Hdig Hd]. rewrite Hdig.
    assert (Hge : (16 * n + d <= v)%Z)
      by (apply (hex_value_from_ge t); [lia | exact H]).
    assert (E1 : (d >=? 16)%Z = false) by (rewrite Z.geb_leb; apply Z.leb_gt; lia).
    rewrite E1.
    change (strconv.maxUint64 / 16 + 1)%Z with (2 ^ 60)%Z.
    assert (E2 : (n >=? 2 ^ 60)%Z = false) by (rewrite Z.geb_leb; apply Z.leb_gt; lia).
    rewrite E2. cbv zeta.
    rewrite (Z.mod_small (n * 16)) by lia.
    rewrite (Z.mod_small (n * 16 + d)) by lia.
    assert (E3 : (n * 16 + d <? n * 16)%Z = false) by (apply Z.ltb_ge; lia).
    assert (E4 : (n * 16 + d >? strconv.maxUint64)%Z = false).
    { rewrite Z.gtb_ltb. apply Z.ltb_ge. unfold strconv.maxUint64. lia. }
    rewrite E3, E4. cbn [orb]. apply IH; [lia | | exact Hv].
    rewrite <- H. f_equal. lia.
Qed.

(** A numeral of 2^64 or more is out of range. *)
Lemma ParseUint_loop_range (s : gostring) :
  forall n v, (0 <= n < 2 ^ 64)%Z -> hex_value_from n s = Some v ->
    (2 ^ 64 <= v)%Z ->
    snd (strconv.ParseUint_loop 16 s n) = Some strconv.ErrRange.
Proof.
  induction s as [|c t IH]; intros n v Hn H Hv;
    cbn [hex_value_from strconv.ParseUint_loop] in *.
  - injection H as <-. lia.
  - destruct (hex_digit c) as [d|] eqn:Ed; [|discriminate].
    destruct (digit_of_hex_digit c d Ed) as [Hdig Hd]. rewrite Hdig.
    assert (E1 : (d >=? 16)%Z = false) by (rewrite Z.geb_leb; apply Z.leb_gt; lia).
    rewrite E1.
    change (strconv.maxUint64 / 16 + 1)%Z with (2 ^ 60)%Z.
    destruct (n >=? 2 ^ 60)%Z eqn:E2; [reflexivity|].
    rewrite Z.geb_leb in E2. apply Z.leb_gt in E2. cbv zeta.
    rewrite (Z.mod_small (n * 16)) by lia.
    rewrite (Z.mod_small (n * 16 + d)) by lia.
    assert (E3 : (n * 16 + d <? n * 16)%Z = false) by (apply Z.ltb_ge; lia).
    assert (E4 : (n * 16 + d >? strconv.maxUint64)%Z = false).
    { rewrite Z.gtb_ltb. apply Z.ltb_ge. unfold strconv.maxUint64. lia. }
    rewrite E3, E4. cbn [orb]. apply (IH _ v); [lia | | exact Hv].
    rewrite <- H. f_equal. lia.
Qed.

(** Anything that is no numeral is an error. *)
Lemma ParseUint_loop_syntax (s : gostring) :
  forall n, hex_value_from n s = None ->
    forall m, snd (strconv.ParseUint_loop 16 s m) <> None.
Proof.
  induction s as [|c t IH]; intros n H m;
    cbn [hex_value_from strconv.ParseUint_loop] in *; [discriminate|].
  pose proof (digit_agree_all c) as Ha. unfold digit_agree in Ha.
  destruct (hex_digit c) as [d|] eqn:Ed.
  - destruct (digit_of_hex_digit c d Ed) as [Hdig Hd]. rewrite Hdig.
    destruct (d >=? 16)%Z; [discriminate|].
    destruct (m >=? _)%Z; [discriminate|]. cbv zeta.
    destruct (_ || _); [discriminate|]. apply (IH _ H).
  - destruct (strconv.digit c) as [d'|]; [|discriminate].
    apply Z.leb_le in Ha.
    assert (E : (d' >=? 16)%Z = true) by (rewrite Z.geb_leb; apply Z.leb_le; lia).
    rewrite E. discriminate.
Qed.

(** What [parsePoint] makes of a parsed number. *)
Definition check_point (x : Z) : result rune :=
  let point := rune_of_uint64 x in
  if (point =? 0)%Z then Fatal UnknownRune
  else if (point >? MaxChar)%Z then Fatal (AboveMaxChar point)
  else Ok point.

Lemma parsePoint_hex_value (s line : gostring) :
  match hex_value s with
  | None => is_fatal (parsePoint s line) = true
  | Some v =>
    if (v <? 2 ^ 64)%Z then parsePoint s line = check_point v
    else parsePoint s line = Fatal (BadNumber strconv.ErrRange)
  end.
Proof.
  unfold parsePoint, strconv.ParseUint, hex_value.
  destruct s as [|c t]; [reflexivity|].
  destruct (hex_value_from 0 (c :: t)) as [v|] eqn:Ev.
  - destruct (v <? 2 ^ 64)%Z eqn:E.
    + apply Z.ltb_lt in E.
      rewrite (ParseUint_loop_value (c :: t) 0 v (Z.le_refl 0) Ev E).
      reflexivity.
    + apply Z.ltb_ge in E.
      pose proof (ParseUint_loop_range (c :: t) 0 v ltac:(lia) Ev E) as Hr.
      destruct (strconv.ParseUint_loop 16 (c :: t) 0) as [x err].
      cbn [snd] in Hr. subst err. reflexivity.
  - pose proof (ParseUint_loop_syntax (c :: t) 0 Ev 0%Z) as Hs.
    destruct (strconv.ParseUint_loop 16 (c :: t) 0) as [x [e|]];
      [reflexivity|]. cbn [snd] in Hs. congruence.
Qed.

Lemma hex_value_nonneg (s : gostring) (v : Z) :
  hex_value s = Some v -> (0 <= v)%Z.
Proof.
  unfold hex_value. destruct s as [|c t]; [discriminate|].
  apply hex_value_from_ge. lia.
Qed.

(** A field that is no hexadecimal numeral (empty, or with a sign, a
    prefix, a blank or any other character) ends the build, and so does a
    numeral of 2^64 or more. *)
Theorem parsePoint_rejects (s line : gostring) :
  (hex_value s = None -> is_fatal (parsePoint s line) = true) /\
  (forall v, hex_value s = Some v -> (2 ^ 64 <= v)%Z ->
             parsePoint s line = Fatal (BadNumber strconv.ErrRange)).
Proof.
  pose proof (parsePoint_hex_value s line) as H. split.
  - intros E. rewrite E in H. exact H.
  - intros v E Hv. rewrite E in H.
    destruct (v <? 2 ^ 64)%Z eqn:E'; [apply Z.ltb_lt in E'; lia | exact H].
Qed.

(** On a numeral below 2^31 [parsePoint] is exact: it returns the value
    when that lies in 1..0x10FFFF, and ends the build for zero and for
    anything above 0x10FFFF. *)
Theorem parsePoint_exact (s line : gostring) (v : Z) :
  hex_value s = Some v -> (v < 2 ^ 31)%Z ->
  parsePoint s line =
  if (v =? 0)%Z then Fatal UnknownRune
  else if (v >? MaxChar)%Z then Fatal (AboveMaxChar v)
  else Ok v.
Proof.
  intros E Hv. pose proof (hex_value_nonneg s v E) as H0.
  pose proof (parsePoint_hex_value s line) as H. rewrite E in H.
  assert (E' : (v <? 2 ^ 64)%Z = true) by (apply Z.ltb_lt; lia).
  rewrite E' in H. rewrite H. unfold check_point, rune_of_uint64.
  replace ((v + 2 ^ 31) mod 2 ^ 32 - 2 ^ 31)%Z with v; [reflexivity|].
  rewrite Z.mod_small by lia. lia.
Qed.

(** The rune [parsePoint] returns depends on the value of the numeral
    alone: not on the case of the digits, on leading zeros or on the
    line. *)
Theorem parsePoint_value_only (s1 s2 line1 line2 : gostring) (v : Z) :
  hex_value s1 = Some v -> hex_value s2 = Some v ->
  parsePoint s1 line1 = parsePoint s2 line2.
Proof.
  intros E1 E2.
  pose proof (parsePoint_hex_value s1 line1) as H1.
  pose proof (parsePoint_hex_value s2 line2) as H2.
  rewrite E1 in H1. rewrite E2 in H2.
  destruct (v <? 2 ^ 64)%Z; congruence.
Qed.

(** A rune [parsePoint] returns is not zero and not above [MaxChar]; it
    may be negative. *)
Lemma parsePoint_range (s line : gostring) (p : rune) :
  parsePoint s line = Ok p ->
  (p <> 0 /\ - 2 ^ 31 <= p <= MaxChar)%Z.
Proof.
  unfold parsePoint.
  destruct (strconv.ParseUint s 16) as [x [e|]]; [discriminate|].
  destruct (rune_of_uint64 x =? 0)%Z eqn:E0; [discriminate|].
  destruct (rune_of_uint64 x >? MaxChar)%Z eqn:E1; [discriminate|].
  intros H. injection H as <-.
  apply Z.eqb_neq in E0. rewrite Z.gtb_ltb in E1. apply Z.ltb_ge in E1.
  split; [exact E0|]. split; [|exact E1].
  unfold rune_of_uint64.
  pose proof (Z.mod_pos_bound (x + 2 ^ 31) (2 ^ 32) ltac:(lia)). lia.
Qed.

Lemma parsePoint_rejects_witness :
  is_fatal (parsePoint (lit "0x41") (dataline "0x41" "0061" "MA")) = true.
Proof.
  apply (proj1 (parsePoint_rejects (lit "0x41") (dataline "0x41" "0061" "MA"))).
  reflexivity.
Defined.

Lemma parsePoint_exact_witness :
  parsePoint (lit "01d4c5") (dataline "01d4c5" "0070" "MA") = Ok 0x1D4C5%Z.
Proof.
  apply (parsePoint_exact (lit "01d4c5") (dataline "01d4c5" "0070" "MA")
           0x1D4C5%Z); [reflexivity | lia].
Defined.

Lemma parsePoint_value_only_witness :
  parsePoint (lit "1D4C5") (dataline "1D4C5" "0070" "MA")
  = parsePoint (lit "0001d4c5") [].
Proof.
  apply (parsePoint_value_only (lit "1D4C5") (lit "0001d4c5")
           (dataline "1D4C5" "0070" "MA") [] 0x1D4C5%Z); reflexivity.
Defined.

(** ** Loading the data *)

(** What every loaded entry satisfies. *)
Definition point_ok (p : rune) : Prop :=
  (p <> 0 /\ - 2 ^ 31 <= p <= MaxChar)%Z.

Definition entry_ok (c : C) : Prop :=
  point_ok (k c) /\ v c <> [] /\ Forall point_ok (v c).

Lemma Split_from_nonempty (sep : gostring) (s : gostring) :
  forall skip cur, strings.Split_from sep skip cur s <> [].
Proof.
  induction s as [|c t IH]; intros skip cur; cbn [strings.Split_from].
  - discriminate.
  - destruct skip; [|apply IH].
    destruct (strings.HasPrefix (c :: t) sep); [discriminate | apply IH].
Qed.

Lemma parse_all_ok (codePoints : list gostring) (line : gostring) :
  forall ps, parse_all codePoints line = Ok ps ->
    length ps = length codePoints /\ Forall point_ok ps.
Proof.
  induction codePoints as [|cp rest IH]; intros ps H; cbn [parse_all] in H.
  - injection H as <-. split; [reflexivity | constructor].
  - destruct (parsePoint cp line) as [p|f] eqn:Ep; [|discriminate].
    cbn [bind] in H.
    destruct (parse_all rest line) as [ps'|f]; [|discriminate].
    cbn [bind] in H. injection H as <-.
    destruct (IH ps' eq_refl) as [Hl Hf]. split.
    + cbn [length]. rewrite Hl. reflexivity.
    + constructor; [exact (parsePoint_range cp line p Ep) | exact Hf].
Qed.

(** [parseCharacter] works on the entries it is given only by appending. *)
Lemma parseCharacter_appends (confusables : list C) (line : gostring) :
  parseCharacter confusables line
  = (new <- parseCharacter [] line ;; Ok (confusables ++ new)).
Proof.
  rewrite !parseCharacter_char. cbv zeta.
  destruct (blank_or_comment line);
    [cbn [bind]; rewrite app_nil_r; reflexivity|].
  destruct (negb (length _ =? NumField)%nat); [reflexivity|].
  destruct (negb (strings.HasPrefix _ _));
    [cbn [bind]; rewrite app_nil_r; reflexivity|].
  destruct (parsePoint _ line); [|reflexivity]. cbn [bind].
  destruct (parse_all _ line); reflexivity.
Qed.

Lemma parseCharacter_new_ok (line : gostring) (new : list C) :
  parseCharacter [] line = Ok new ->
  (length new <= 1)%nat /\ Forall entry_ok new.
Proof.
  rewrite parseCharacter_char. cbv zeta.
  destruct (blank_or_comment line).
  { intros H. injection H as <-. split; [cbn; lia | constructor]. }
  destruct (negb (length _ =? NumField)%nat); [discriminate|].
  destruct (negb (strings.HasPrefix _ _)).
  { intros H. injection H as <-. split; [cbn; lia | constructor]. }
  destruct (parsePoint _ line) as [p|f] eqn:Ep; [|discriminate].
  cbn [bind].
  destruct (parse_all _ line) as [ps|f] eqn:Eps; [|discriminate].
  cbn [bind app]. intros H. injection H as <-.
  destruct (parse_all_ok _ _ _ Eps) as [Hl Hf].
  split; [cbn; lia|]. constructor; [|constructor].
  split; [exact (parsePoint_range _ _ _ Ep)|]. split; [|exact Hf].
  cbn [v]. intros ->. cbn [length] in Hl. symmetry in Hl.
  apply length_zero_iff_nil in Hl.
  exact (Split_from_nonempty _ _ _ _ Hl).
Qed.

(** The second loop: lines handled one after the other, each appending to
    what the lines before it gave. *)
Lemma character_loop_appends (lines : list gostring) :
  forall confusables,
    character_loop confusables lines
    = (new <- character_loop [] lines ;; Ok (confusables ++ new)).
Proof.
  induction lines as [|line rest IH]; intros confusables;
    cbn [character_loop].
  - cbn [bind]. rewrite app_nil_r. reflexivity.
  - rewrite (parseCharacter_appends confusables line).
    destruct (parseCharacter [] line) as [new|f]; [|reflexivity].
    cbn [bind app]. rewrite (IH (confusables ++ new)), (IH new).
    destruct (character_loop [] rest) as [new'|f']; [|reflexivity].
    cbn [bind]. rewrite app_assoc. reflexivity.
Qed.

(** Loading a file in two parts: the entries of the lines [lines1 ++
    lines2] are those of [lines1] followed by those of [lines2], and the
    load fails when either part does. *)
Theorem character_loop_app (lines1 lines2 : list gostring) :
  character_loop [] (lines1 ++ lines2)
  = (cs1 <- character_loop [] lines1 ;;
     cs2 <- character_loop [] lines2 ;;
     Ok (cs1 ++ cs2)).
Proof.
  induction lines1 as [|line rest IH]; cbn [app character_loop].
  - cbn [bind]. destruct (character_loop [] lines2); reflexivity.
  - destruct (parseCharacter [] line) as [new|f]; [|reflexivity].
    cbn [bind].
    rewrite (character_loop_appends (rest ++ lines2) new),
            (character_loop_appends rest new), IH.
    destruct (character_loop [] rest) as [cs1|f1]; [|reflexivity].
    cbn [bind].
    destruct (character_loop [] lines2) as [cs2|f2]; [|reflexivity].
    cbn [bind]. rewrite app_assoc. reflexivity.
Qed.

Lemma character_loop_ok (lines : list gostring) :
  forall cs, character_loop [] lines = Ok cs ->
    (length cs <= length lines)%nat /\ Forall entry_ok cs.
Proof.
  induction lines as [|line rest IH]; intros cs H; cbn [character_loop] in H.
  - injection H as <-. split; [cbn; lia | constructor].
  - destruct (parseCharacter [] line) as [new|f] eqn:En; [|discriminate].
    cbn [bind] in H. rewrite character_loop_appends in H.
    destruct (character_loop [] rest) as [cs'|f']; [|discriminate].
    cbn [bind] in H. injection H as <-.
    destruct (parseCharacter_new_ok line new En) as [Hl Hf].
    destruct (IH cs' eq_refl) as [Hl' Hf'].
    split; [rewrite length_app; cbn [length]; lia|].
    apply Forall_app. split; assumption.
Qed.

(** Whatever the file, the entries a successful load returns have a source
    that is not zero and not above [MaxChar], and at least one target, each
    not zero and not above [MaxChar]; there is at most one entry per line
    read behind the header. *)
Theorem loadUnicodeData_entries_ok (lines : list gostring)
    (originalHeader : gostring) (confusables : list C) :
  forall err,
  loadUnicodeData lines err = Ok (originalHeader, confusables) ->
  Forall entry_ok confusables /\
  (length confusables
   <= length (snd (header_loop originalHeader0 lines)))%nat.
Proof.
  intros err. unfold loadUnicodeData.
  destruct (header_loop originalHeader0 lines) as [hdr rest]. cbn [snd].
  destruct (character_loop [] rest) as [cs|f] eqn:Ecs; [|discriminate].
  cbn [bind]. destruct err as [e|]; [discriminate|].
  intros H. injection H as _ <-.
  destruct (character_loop_ok rest cs Ecs). split; assumption.
Qed.

Lemma loadUnicodeData_entries_ok_witness :
  Forall entry_ok [mkC 0x430%Z [0x61%Z]; mkC 0x440%Z [0x70%Z];
                   mkC 0x443%Z [0x79%Z]] /\
  (3 <= length (snd (header_loop originalHeader0 cyrillic_lines)))%nat.
Proof.
  apply (loadUnicodeData_entries_ok cyrillic_lines
           (originalHeader0 ++ lit "// confusables.txt" ++ [x0a])
           [mkC 0x430%Z [0x61%Z]; mkC 0x440%Z [0x70%Z]; mkC 0x443%Z [0x79%Z]]
           None).
  vm_compute. reflexivity.
Defined.

(** A line the line parser passes over: blank, a comment, or three fields
    with a tag that does not start with MA. *)
Definition passed_over (line : gostring) : bool :=
  blank_or_comment line ||
  let field := strings.Split line field_sep in
  (length field =? NumField)%nat &&
  negb (strings.HasPrefix (nth CType field []) (lit "MA")).

Lemma parseCharacter_passed_over (confusables : list C) (line : gostring) :
  passed_over line = true -> parseCharacter confusables line = Ok confusables.
Proof.
  unfold passed_over. rewrite parseCharacter_char. cbv zeta.
  destruct (blank_or_comment line); [reflexivity|]. cbn [orb].
  intros H. apply andb_true_iff in H as [Hn HMA].
  rewrite Hn, HMA. reflexivity.
Qed.

(** Blank lines, comments and the lines of other classes can be taken out
    of the data, or put in, without any effect on what is loaded. *)
Theorem character_loop_filter (lines : list gostring) :
  forall confusables,
    character_loop confusables lines
    = character_loop confusables
        (filter (fun line => negb (passed_over line)) lines).
Proof.
  induction lines as [|line rest IH]; intros confusables; [reflexivity|].
  cbn [filter]. destruct (passed_over line) eqn:E; cbn [negb character_loop].
  - rewrite (parseCharacter_passed_over confusables line E). cbn [bind].
    apply IH.
  - destruct (parseCharacter confusables line); [|reflexivity].
    cbn [bind]. apply IH.
Qed.

(** The comment a header line becomes: "//" and the line without its '#',
    a byte order mark dropped. *)
Definition header_comment (line : gostring) : gostring :=
  let line := if strings.HasPrefix line BOM then skipn 3 line else line in
  lit "//" ++ tl line ++ [x0a].

Lemma parseHeader_comment (originalHeader line : gostring) :
  ends_header line = false ->
  parseHeader originalHeader line
  = (false, originalHeader ++ header_comment line).
Proof.
  unfold parseHeader, ends_header, header_comment, BOM.
  destruct line as [|a [|b [|c [|d l]]]]; cbn [strings.HasPrefix firstn length].
  - discriminate.
  - rewrite andb_false_r. cbn.
    destruct (Byte.eqb a x23); [reflexivity | discriminate].
  - rewrite !andb_false_r. cbn.
    destruct (Byte.eqb a x23); [reflexivity | discriminate].
  - change (3 <? 3)%nat with false. cbn [andb gostring_eqb].
    destruct (Byte.eqb a xef) eqn:Ea; cbn [andb].
    + apply Byte.byte_dec_bl in Ea. subst a.
      destruct (Byte.eqb b xbb && (Byte.eqb c xbf && true));
        cbn; discriminate.
    + destruct (Byte.eqb a x23); [reflexivity | discriminate].
  - change (3 <? S (S (S (S (length l)))))%nat with true.
    cbn [andb gostring_eqb].
    destruct (Byte.eqb a xef && (Byte.eqb b xbb && (Byte.eqb c xbf && true)));
      cbn [skipn tl].
    + destruct (Byte.eqb d x23); [reflexivity | discriminate].
    + destruct (Byte.eqb a x23); [reflexivity | discriminate].
Qed.

(** The header handed to [makeTables] is the initial text followed by one
    comment line for each line of the header block, in order; the line
    that ends the block adds nothing. *)
Theorem header_loop_collects (hs : list gostring) :
  forall (originalHeader t : gostring) (rest : list gostring),
    Forall (fun line => ends_header line = false) hs ->
    ends_header t = true ->
    header_loop originalHeader (hs ++ t :: rest)
    = (originalHeader ++ concat (map header_comment hs), rest).
Proof.
  induction hs as [|h hs IH]; intros originalHeader t rest Hhs Ht.
  - rewrite (header_loop_consumes [] originalHeader t rest Hhs Ht).
    cbn. rewrite app_nil_r. reflexivity.
  - inversion Hhs as [|? ? Hh Hhs']; subst.
    cbn [app header_loop map concat].
    rewrite (parseHeader_comment originalHeader h Hh).
    rewrite (IH _ t rest Hhs' Ht), <- app_assoc. reflexivity.
Qed.

Lemma header_loop_collects_witness :
  header_loop originalHeader0
    ([BOM ++ lit "# confusables.txt"; lit "# Version 8"] ++
     [] :: [dataline "0430" "0061" "MA"])
  = (originalHeader0 ++
     concat (map header_comment
               [BOM ++ lit "# confusables.txt"; lit "# Version 8"]),
     [dataline "0430" "0061" "MA"]).
Proof.
  apply (header_loop_collects
           [BOM ++ lit "# confusables.txt"; lit "# Version 8"]
           originalHeader0 [] [dataline "0430" "0061" "MA"]).
  - repeat constructor.
  - reflexivity.
Defined.

(** ** What [makeTables] writes *)

(** An entry is written unless it confuses the letter m with "rn". *)
Definition kept (c : C) : bool :=
  negb (strings.Contains (string_of_runes (v c)) (lit "rn")
        && (k c =? 0x6D)%Z).

Lemma emit_key (c : C) : map fst (emit c) = if kept c then [k c] else [].
Proof.
  unfold emit, kept. rewrite EncodeRune_is_m.
  set (sv := string_of_runes (v c)).
  destruct (strings.Contains sv (lit "rn")).
  { destruct (k c =? 0x6D)%Z; reflexivity. }
  cbn [andb negb].
  repeat match goal with
         | |- context [strings.Contains sv ?p] =>
           destruct (strings.Contains sv p); [reflexivity|]
         end.
  reflexivity.
Qed.

Lemma emit_keys (confusables : list C) :
  map fst (flat_map emit confusables) = map k (filter kept confusables).
Proof.
  induction confusables as [|c cs IH]; [reflexivity|].
  change (flat_map emit (c :: cs)) with (emit c ++ flat_map emit cs).
  cbn [filter]. rewrite map_app, emit_key.
  destruct (kept c); cbn [app map]; [f_equal|]; exact IH.
Qed.

(** The keys of the table, in the order written: the sources of the loaded
    entries, without those that map the letter m to something with "rn",
    then the keys of the additions.  No rule changes or drops another
    key. *)
Theorem makeTables_keys (originalHeader : gostring) (confusables : list C) :
  map fst (entries (makeTables originalHeader confusables))
  = map k (filter kept confusables) ++ map fst additions.
Proof.
  unfold makeTables. cbn [entries]. rewrite map_app, emit_keys.
  reflexivity.
Qed.

Section ReplaceOne.

(** A pattern and the single byte written for it, a byte that does not
    occur in the pattern. *)
Variable old : gostring.
Variable new1 : byte.
Hypothesis old_nonempty : old <> [].
Hypothesis new1_fresh : ~ In new1 old.

Lemma Replace_from_skip (s : gostring) :
  forall skip,
    strings.Replace_from old [new1] skip s
    = strings.Replace_from old [new1] 0 (skipn skip s).
Proof.
  induction s as [|c t IH]; intros [|skip]; try reflexivity.
  cbn [strings.Replace_from skipn]. apply IH.
Qed.

(** A prefix that the replaced text shows was there before. *)
Lemma HasPrefix_Replace (o : gostring) :
  ~ In new1 o ->
  forall t, strings.HasPrefix (strings.Replace_from old [new1] 0 t) o = true ->
            strings.HasPrefix t o = true.
Proof.
  induction o as [|p o' IH]; intros Hfresh t H; [destruct t; reflexivity|].
  destruct t as [|c t']; [discriminate H|].
  cbn [strings.Replace_from] in H.
  destruct (strings.HasPrefix (c :: t') old).
  - cbn [app strings.HasPrefix] in H. apply andb_true_iff in H as [H _].
    apply Byte.byte_dec_bl in H. subst p. exfalso. apply Hfresh. left.
    reflexivity.
  - cbn [strings.HasPrefix] in H |- *. apply andb_true_iff in H as [Hc H].
    rewrite Hc. cbn [andb]. apply IH; [|exact H].
    intros Hin. apply Hfresh. right. exact Hin.
Qed.

Lemma Contains_cons (c : byte) (s p : gostring) :
  strings.Contains (c :: s) p
  = strings.HasPrefix (c :: s) p || strings.Contains s p.
Proof. reflexivity. Qed.

Lemma Replace_removes (n : nat) :
  forall s, (length s <= n)%nat ->
    strings.Contains (strings.Replace_from old [new1] 0 s) old = false.
Proof.
  destruct old as [|p o'] eqn:Eold; [congruence|].
  induction n as [|n IH]; intros [|c t] Hlen; cbn [length] in Hlen;
    try reflexivity; try lia.
  cbn [strings.Replace_from].
  destruct (strings.HasPrefix (c :: t) (p :: o')) eqn:Hp.
  - cbn [app]. rewrite Contains_cons. cbn [strings.HasPrefix].
    destruct (Byte.eqb new1 p) eqn:Eb.
    + apply Byte.byte_dec_bl in Eb. exfalso. apply new1_fresh. left.
      symmetry. exact Eb.
    + cbn [andb orb]. rewrite <- Eold, Replace_from_skip, Eold.
      apply IH. rewrite length_skipn. lia.
  - rewrite Contains_cons. rewrite (IH t) by lia. rewrite orb_false_r.
    cbn [strings.HasPrefix] in Hp |- *.
    destruct (Byte.eqb c p); [|reflexivity]. cbn [andb] in Hp |- *.
    destruct (strings.HasPrefix
                (strings.Replace_from (p :: o') [new1] 0 t) o') eqn:Hq;
      [|reflexivity].
    rewrite <- Eold in Hq. apply HasPrefix_Replace in Hq; [congruence|].
    intros Hin. apply new1_fresh. right. exact Hin.
Qed.

End ReplaceOne.

(** Each rule replaces its pattern by one byte that the pattern does not
    hold. *)
Lemma override_rules_fresh (old new : gostring) :
  In (old, new) override_rules ->
  old <> [] /\ exists new1, new = [new1] /\ ~ In new1 old.
Proof.
  intros Hin. unfold override_rules in Hin. cbn [In] in Hin.
  repeat match type of Hin with
         | _ \/ _ => destruct Hin as [Hin|Hin]
         end; try contradiction; injection Hin as <- <-;
    (split; [discriminate|]); eexists; (split; [reflexivity|]);
    cbn; intros H;
    repeat match type of H with
           | _ \/ _ => destruct H as [H|H]
           end; try contradiction; discriminate.
Qed.

(** The string written under a rule holds no occurrence of the pattern of
    that rule any more: no "rn" under the "rn" rule, no π under the π rule,
    and so on.  (A later pattern may still occur, and the "n" written for π
    may form a new "rn" behind an "r".) *)
Theorem emit_removes_pattern (c : C) (old new : gostring) (e : entry) :
  first_match (string_of_runes (v c)) = Some (old, new) ->
  In e (emit c) ->
  fst e = k c /\
  snd e = strings.Replace (string_of_runes (v c)) old new /\
  strings.Contains (snd e) old = false.
Proof.
  intros Hfm Hin. rewrite emit_override_spec in Hin.
  unfold override_spec in Hin. rewrite Hfm in Hin.
  destruct (gostring_eqb old (lit "rn") && (k c =? 0x6D)%Z);
    [contradiction|].
  cbn [option_list In] in Hin. destruct Hin as [<-|[]]. cbn [fst snd].
  split; [reflexivity|]. split; [reflexivity|].
  unfold first_match in Hfm. apply find_some in Hfm as [Hrule _].
  destruct (override_rules_fresh old new Hrule) as (Hne & new1 & -> & Hfresh).
  unfold strings.Replace.
  apply (Replace_removes old new1 Hne Hfresh
           (length (string_of_runes (v c)))). lia.
Qed.

Lemma emit_removes_pattern_witness :
  fst (0x2118%Z, lit "mπm") = k (mkC 0x2118%Z [0x72; 0x6E; 0x3C0; 0x72; 0x6E]%Z)
  /\ snd (0x2118%Z, lit "mπm")
     = strings.Replace
         (string_of_runes (v (mkC 0x2118%Z [0x72; 0x6E; 0x3C0; 0x72; 0x6E]%Z)))
         (lit "rn") (lit "m")
  /\ strings.Contains (snd (0x2118%Z, lit "mπm")) (lit "rn") = false.
Proof.
  apply (emit_removes_pattern
           (mkC 0x2118%Z [0x72; 0x6E; 0x3C0; 0x72; 0x6E]%Z)
           (lit "rn") (lit "m") (0x2118%Z, lit "mπm")).
  - reflexivity.
  - left. reflexivity.
Defined.

(** The π rule can write "rn" anew. *)
Example emit_pi_makes_rn :
  emit (mkC 0x2118%Z [0x72; 0x3C0]%Z) = [(0x2118%Z, lit "rn")].
Proof. reflexivity. Qed.

(** ** The fields of a line *)

(** [strings.Join]. *)
Fixpoint Join (elems : list gostring) (sep : gostring) : gostring :=
  match elems with
  | [] => []
  | [e] => e
  | e :: rest => e ++ sep ++ Join rest sep
  end.

Lemma HasPrefix_skipn (p : gostring) :
  forall s, strings.HasPrefix s p = true -> s = p ++ skipn (length p) s.
Proof.
  induction p as [|a p IH]; intros s H; [reflexivity|].
  destruct s as [|c t]; [discriminate|].
  cbn [strings.HasPrefix] in H. apply andb_true_iff in H as [Hc H].
  apply Byte.byte_dec_bl in Hc. subst c.
  cbn [length skipn app]. f_equal. apply IH. exact H.
Qed.

Lemma Join_cons (e : gostring) (rest : list gostring) (sep : gostring) :
  rest <> [] -> Join (e :: rest) sep = e ++ sep ++ Join rest sep.
Proof. destruct rest; [congruence | reflexivity]. Qed.

Lemma Split_from_Join (sep : gostring) (s : gostring) :
  sep <> [] ->
  forall skip cur, (skip <= length s)%nat ->
    Join (strings.Split_from sep skip cur s) sep = cur ++ skipn skip s.
Proof.
  intros Hsep. induction s as [|c t IH]; intros skip cur Hskip.
  - cbn [length] in Hskip. assert (skip = 0)%nat by lia. subst skip.
    cbn. rewrite app_nil_r. reflexivity.
  - cbn [strings.Split_from]. destruct skip as [|skip].
    + destruct (strings.HasPrefix (c :: t) sep) eqn:Hp.
      * pose proof (HasPrefix_skipn sep (c :: t) Hp) as Hs.
        destruct sep as [|a sep']; [congruence|].
        cbn [length skipn] in Hs. cbn [length].
        rewrite Nat.sub_succ, Nat.sub_0_r.
        rewrite Join_cons by apply Split_from_nonempty.
        assert (Hlen : (length sep' <= length t)%nat).
        { apply (f_equal (@length byte)) in Hs.
          cbn [length app] in Hs. rewrite length_app in Hs. lia. }
        rewrite (IH (length sep') [] Hlen). cbn [app skipn].
        f_equal. symmetry. exact Hs.
      * rewrite (IH 0%nat (cur ++ [c])) by lia.
        cbn [skipn]. rewrite <- app_assoc. reflexivity.
    + cbn [length] in Hskip. rewrite (IH skip cur) by lia. reflexivity.
Qed.

(** Every entry stems from a line of the form
    [source ;<tab>targets ;<tab>tag], the tag starting with MA, whose
    source field [parsePoint] reads as the key and whose target field,
    split at single blanks, it reads as the targets. *)
Theorem parseCharacter_entry_line (line : gostring) (c : C) :
  parseCharacter [] line = Ok [c] ->
  exists source targets tag,
    line = source ++ field_sep ++ targets ++ field_sep ++ tag /\
    strings.HasPrefix tag (lit "MA") = true /\
    parsePoint source line = Ok (k c) /\
    parse_all (strings.Split targets (lit " ")) line = Ok (v c).
Proof.
  rewrite parseCharacter_char. cbv zeta.
  destruct (blank_or_comment line); [discriminate|].
  destruct (length (strings.Split line field_sep) =? NumField)%nat eqn:En;
    [|discriminate].
  cbn [negb].
  destruct (strings.HasPrefix
              (nth CType (strings.Split line field_sep) []) (lit "MA"))
    eqn:HMA; [|discriminate].
  cbn [negb].
  pose proof (Split_from_Join field_sep line ltac:(discriminate) 0 []
                (Nat.le_0_l _)) as HJ.
  fold (strings.Split line field_sep) in HJ. cbn [app skipn] in HJ.
  apply Nat.eqb_eq in En.
  destruct (strings.Split line field_sep) as [|f0 [|f1 [|f2 [|f3 fs]]]];
    try discriminate En.
  cbn [nth CType CSourceCodePoint CTargetCodePoint] in *.
  destruct (parsePoint f0 line) as [p|f] eqn:Ep; [|discriminate].
  cbn [bind].
  destruct (parse_all (strings.Split f1 (lit " ")) line) as [ps|f] eqn:Eps;
    [|discriminate].
  cbn [bind app]. intros H. injection H as <-.
  exists f0, f1, f2. cbn [k v]. repeat split; try assumption.
  symmetry. exact HJ.
Qed.

Lemma parseCharacter_entry_line_witness :
  exists source targets tag,
    dataline "217F" "0072 006E" "MA"
    = source ++ field_sep ++ targets ++ field_sep ++ tag /\
    strings.HasPrefix tag (lit "MA") = true /\
    parsePoint source (dataline "217F" "0072 006E" "MA")
    = Ok (k (mkC 0x217F%Z [0x72; 0x6E]%Z)) /\
    parse_all (strings.Split targets (lit " "))
      (dataline "217F" "0072 006E" "MA")
    = Ok (v (mkC 0x217F%Z [0x72; 0x6E]%Z)).
Proof.
  apply (parseCharacter_entry_line (dataline "217F" "0072 006E" "MA")
           (mkC 0x217F%Z [0x72; 0x6E]%Z)).
  reflexivity.
Defined.

(** ** The whole generator *)

Section Pipeline.

Variable Source : gostring -> option gostring.
Variable Sprintf_entry : rune -> gostring -> gostring.

(** The whole run, for a file of which the scanner yields a header block
    [hs], the line [t] that ends it and the lines [rest], and then reports
    [err]: the lines of [rest] are parsed, and the first violation ends
    the run; else an error of the scanner ends it; else the table, made of
    the header comments of [hs] and of the lines written for the entries
    of [rest] followed by the additions, is put into text and given to the
    formatter, and [tables.go] holds the notice, the package clause and
    the formatted text, or, when the formatter refuses the text, the text
    unformatted, the run ending fatally with the file left so. *)
Theorem main_pipeline (hs : list gostring) (t : gostring)
    (rest : list gostring) (err : option scan_error) :
  Forall (fun line => ends_header line = false) hs ->
  ends_header t = true ->
  let table_of_entries confusables :=
    mkTable (originalHeader0 ++ concat (map header_comment hs))
            (flat_map emit confusables ++ additions) in
  main Source Sprintf_entry (hs ++ t :: rest) err
  = (confusables <- character_loop [] rest ;;
     _ <- check_scanner err tt ;;
     let out := strip_newlines
                  (out_of Sprintf_entry (table_of_entries confusables)) in
     match Source out with
     | Some formatted => Ok (header_of (lit "confusables") ++ formatted)
     | None => Fatal (FormatFailed (header_of (lit "confusables") ++ out))
     end).
Proof.
  intros Hhs Ht. cbv zeta. unfold main, loadUnicodeData.
  pose proof (header_loop_consumes hs originalHeader0 t rest Hhs Ht) as Hc.
  assert (Hh : fst (header_loop originalHeader0 hs)
               = originalHeader0 ++ concat (map header_comment hs)).
  { clear Hc. generalize originalHeader0 as h.
    induction hs as [|l ls IH]; intros h.
    - cbn. rewrite app_nil_r. reflexivity.
    - inversion Hhs as [|? ? Hl Hls]; subst. cbn [header_loop map concat].
      rewrite (parseHeader_comment h l Hl), (IH Hls), <- app_assoc.
      reflexivity. }
  rewrite Hc, Hh.
  destruct (character_loop [] rest) as [cs|f]; [|reflexivity].
  cbn [bind]. destruct err as [e|]; [reflexivity|].
  cbn [check_scanner bind fst snd].
  unfold write_tables, WriteGoFile, makeTables.
  destruct (Source _); reflexivity.
Qed.

End Pipeline.

Lemma main_pipeline_witness :
  main (fun b => Some b) (fun _ s => s)
    ([lit "# confusables.txt"] ++ [] :: [dataline "ZZZZ" "0061" "MA"])
    (Some ErrTooLong)
  = Fatal (BadNumber strconv.ErrSyntax).
Proof.
  apply (main_pipeline (fun b => Some b) (fun _ s => s)
           [lit "# confusables.txt"] [] [dataline "ZZZZ" "0061" "MA"]
           (Some ErrTooLong)).
  - repeat constructor.
  - reflexivity.
Defined.

Lemma NoDup_app_disjoint {A : Type} (l1 l2 : list A) (a : A) :
  In a l1 -> In a l2 -> ~ NoDup (l1 ++ l2).
Proof.
  induction l1 as [|x l1 IH]; intros H1 H2 Hnd; [contradiction|].
  cbn [app] in Hnd. inversion Hnd as [|? ? Hx Hnd']; subst.
  destruct H1 as [->|H1].
  - apply Hx. apply in_or_app. right. exact H2.
  - exact (IH H1 H2 Hnd').
Qed.

Lemma additions_keys_NoDup : NoDup (map fst additions).
Proof.
  assert (E : nodup Z.eq_dec (map fst additions) = map fst additions)
    by (vm_compute; reflexivity).
  rewrite <- E. apply NoDup_nodup.
Qed.

(** The generator does not look for keys written twice.  The keys of the
    map literal it writes are pairwise distinct exactly when the sources
    of the kept entries, taken line by line, are pairwise distinct and
    none of them is a key of the additions: a source that is also a key of
    the additions (fullwidth b, or π, for one), or that is loaded from two
    lines, be they equal or not, is written twice. *)
Theorem makeTables_keys_unique (originalHeader : gostring)
    (confusables : list C) :
  NoDup (map fst (entries (makeTables originalHeader confusables)))
  <->
  NoDup (map k (filter kept confusables)) /\
  (forall c, In c confusables -> kept c = true ->
             ~ In (k c) (map fst additions)).
Proof.
  unfold makeTables. cbn [entries]. rewrite map_app, emit_keys. split.
  - intros Hnd. split; [exact (NoDup_app_remove_r _ _ Hnd)|].
    intros c Hin Hkept Hadd.
    apply (NoDup_app_disjoint _ _ (k c)) in Hnd; [exact Hnd | | exact Hadd].
    apply in_map, filter_In. split; assumption.
  - intros [Hnd Hdis].
    apply NoDup_app; [exact Hnd | exact additions_keys_NoDup |].
    intros a Ha Hadd. apply in_map_iff in Ha as (c & <- & Hc).
    apply filter_In in Hc as [Hin Hkept].
    exact (Hdis c Hin Hkept Hadd).
Qed.

(** The same line read twice gives its key twice. *)
Lemma makeTables_keys_unique_witness :
  ~ NoDup (map fst (entries (makeTables originalHeader0
                               [mkC 0x430%Z [0x61%Z]; mkC 0x430%Z [0x61%Z]]))).
Proof.
  intros Hnd.
  destruct (proj1 (makeTables_keys_unique originalHeader0
                     [mkC 0x430%Z [0x61%Z]; mkC 0x430%Z [0x61%Z]]) Hnd)
    as [Hk _].
  vm_compute in Hk. inversion Hk as [|? ? Hx _]. apply Hx. left. reflexivity.
Defined.

(** ** Substitution and concatenation *)

Section SubstituteApp.

Variable confusablesMap : rune -> option gostring.

Lemma substitute_app (rs : list rune) (rest : gostring) :
  substitute_spec confusablesMap (string_of_runes rs ++ rest)
  = flat_map (rune_subst confusablesMap) rs
    ++ substitute_spec confusablesMap rest.
Proof.
  induction rs as [|r rs IH]; [reflexivity|].
  unfold string_of_runes in *. cbn [flat_map]. rewrite <- !app_assoc.
  destruct (EncodeRune_round_trip r (flat_map utf8.EncodeRune rs ++ rest))
    as [Hne Hd].
  unfold rune_subst at 1.
  destruct (utf8.EncodeRune r) as [|b e] eqn:Ee; [congruence|].
  cbn [app] in *. simp substitute_spec. unfold emitted. rewrite Hd.
  cbn [snd].
  change (b :: e ++ flat_map utf8.EncodeRune rs ++ rest)
    with ((b :: e) ++ flat_map utf8.EncodeRune rs ++ rest).
  rewrite skipn_app, skipn_all, Nat.sub_diag.
  rewrite firstn_app, firstn_all, Nat.sub_diag.
  cbn [skipn firstn app]. rewrite app_nil_r, IH.
  destruct (confusablesMap (encoded_rune r)); reflexivity.
Qed.

Lemma scan_0 (s : gostring) :
  scan confusablesMap s 0 = Some (substitute_spec confusablesMap s).
Proof.
  destruct (scan_runs confusablesMap (length s) s 0)
    as (n & _ & _ & Hscan); [lia | unfold unscanned; lia |].
  exact Hscan.
Qed.

(** Behind well-formed text the loop starts afresh: run over the encoding
    of the runes [rs] followed by any text, it writes for each rune its
    replacement or its encoding, and behind that what it returns for the
    rest alone, well formed or not. *)
Theorem scan_app (rs : list rune) (rest : gostring) :
  scan confusablesMap (string_of_runes rs ++ rest) 0
  = option_map (app (flat_map (rune_subst confusablesMap) rs))
      (scan confusablesMap rest 0).
Proof. rewrite !scan_0, substitute_app. reflexivity. Qed.

End SubstituteApp.

(** ** [WriteGoFile] *)

Section WriteGoFile.

Variable Source : gostring -> option gostring.

Lemma strip_newlines_spec (b : gostring) :
  exists n,
    b = repeat x0a n ++ strip_newlines b /\
    (forall t, strip_newlines b <> x0a :: t).
Proof.
  induction b as [|c t IH].
  - exists 0%nat. split; [reflexivity | discriminate].
  - cbn [strip_newlines]. destruct (Byte.eqb c x0a) eqn:E.
    + apply Byte.byte_dec_bl in E. subst c.
      destruct IH as (n & Hn & Hhd). exists (S n). split; [|exact Hhd].
      cbn [repeat app]. f_equal. exact Hn.
    + exists 0%nat. split; [reflexivity|].
      intros t' H. injection H as -> _. discriminate E.
Qed.

(** The file always starts with the generated-file notice and the package
    clause; behind them stands the formatted text, or, when the formatter
    refuses it, the text as given; in both cases it is the text without
    its leading newlines, and only those, that is formatted or written. *)
Theorem WriteGoFile_file (pkg b : gostring) :
  exists n body,
    b = repeat x0a n ++ body /\
    (forall t, body <> x0a :: t) /\
    WriteGoFile Source pkg b =
    match Source body with
    | Some formatted => Formatted (header_of pkg ++ formatted)
    | None => FormatError (header_of pkg ++ body)
    end.
Proof.
  destruct (strip_newlines_spec b) as (n & Hn & Hhd).
  exists n, (strip_newlines b). repeat split; assumption || reflexivity.
Qed.

End WriteGoFile.

(** ** One run of the loop body per rune *)

Section RunsPerRune.

Variable confusablesMap : rune -> option gostring.

Lemma runs_scan (s r : gostring) (i n : nat) :
  runs confusablesMap s i n r -> scan confusablesMap s i = Some r.
Proof.
  induction 1 as [s i Hlt | s i s' w n r Hlt Hb _ IH].
  - apply scan_exit. exact Hlt.
  - rewrite (scan_step confusablesMap s s' i w Hlt Hb). exact IH.
Qed.

Lemma runs_on_runes (rs : list rune) :
  forall before,
    exists r,
      runs confusablesMap (before ++ string_of_runes rs) (length before)
        (length rs) r.
Proof.
  induction rs as [|c rs IH]; intros before.
  - exists (before ++ string_of_runes []). constructor.
    cbn [string_of_runes flat_map]. rewrite app_nil_r. apply Nat.ltb_irrefl.
  - unfold string_of_runes in *. cbn [flat_map].
    set (tail := flat_map utf8.EncodeRune rs) in *.
    destruct (EncodeRune_round_trip c tail) as [Hne Hd].
    assert (Hlen : (length before
                    < length (before ++ utf8.EncodeRune c ++ tail))%nat).
    { rewrite !length_app. destruct (utf8.EncodeRune c); [congruence|].
      cbn [length]. lia. }
    pose proof (loop_body_in_place confusablesMap _ _ Hlen) as Hb.
    rewrite skipn_app, skipn_all, Nat.sub_diag in Hb. cbn [skipn app] in Hb.
    rewrite Hd in Hb.
    rewrite firstn_app, firstn_all, Nat.sub_diag in Hb.
    cbn [firstn] in Hb. rewrite app_nil_r in Hb.
    assert (Hskip : skipn (length before + length (utf8.EncodeRune c))
                      (before ++ utf8.EncodeRune c ++ tail) = tail).
    { rewrite app_assoc, <- length_app, skipn_app, skipn_all, Nat.sub_diag.
      reflexivity. }
    rewrite Hskip in Hb.
    destruct (confusablesMap (encoded_rune c)) as [replacement|].
    + destruct (IH (before ++ replacement)) as [r Hr].
      rewrite length_app, <- app_assoc in Hr.
      exists r. econstructor; [apply Nat.ltb_lt; exact Hlen | exact Hb |].
      exact Hr.
    + destruct (IH (before ++ utf8.EncodeRune c)) as [r Hr].
      rewrite length_app, <- app_assoc in Hr.
      exists r. econstructor; [apply Nat.ltb_lt; exact Hlen | exact Hb |].
      exact Hr.
Qed.

(** On the encoding of a sequence of runes the body of the loop runs once
    for each rune, whatever the lengths of the replacements, and the loop
    returns the runes substituted one by one. *)
Theorem runs_once_per_rune (rs : list rune) :
  runs confusablesMap (string_of_runes rs) 0 (length rs)
    (flat_map (rune_subst confusablesMap) rs) /\
  scan confusablesMap (string_of_runes rs) 0
  = Some (flat_map (rune_subst confusablesMap) rs).
Proof.
  destruct (runs_on_runes rs []) as [r Hr]. cbn [app length] in Hr.
  pose proof (runs_scan _ _ _ _ Hr) as Hs.
  rewrite scan_0, (substitute_runes confusablesMap rs) in Hs.
  injection Hs as <-. split; [exact Hr|].
  rewrite scan_0, (substitute_runes confusablesMap rs). reflexivity.
Qed.

End RunsPerRune.
